(** * django-etc: toolbox helpers and the Gravatar template tags

    A shallow embedding of [etc/toolbox.py] and [etc/templatetags/gravatar.py]
    together with the properties stated about them.

    Conventions of the embedding.
    - A Python [str] is represented by its UTF-8 encoding, held in a Rocq
      [string] (one [ascii] per byte); [str.encode()] is then the passage from
      [string] to a list of bytes.
    - A Python exception is a value of [exn]; a call that may raise returns a
      [result].
    - Insertion-ordered mappings whose order is observable ([OrderedDict], the
      query mapping handed to [urlencode]) are association lists updated in
      place; dictionaries used as plain maps are [gmap]s; objects that are
      mutated through references live in an explicit heap. *)

From Stdlib Require Import ZArith.
From Stdlib.Strings Require Import Ascii String Byte.
From stdpp Require Import gmap strings list fin_maps pretty.

Local Open Scope Z_scope.
Local Open Scope string_scope.
Local Open Scope list_scope.

(** ** Exceptions and results *)

Inductive exn : Type :=
  | ImproperlyConfigured (msg : string)
  | LookupError
  | ValueError
  | AttributeError
  | AppRegistryNotReady.

Inductive result (A : Type) : Type :=
  | Ok (a : A)
  | Raise (e : exn).
Arguments Ok {A} a.
Arguments Raise {A} e.

Definition rbind {A B} (r : result A) (k : A → result B) : result B :=
  match r with
  | Ok a => k a
  | Raise e => Raise e
  end.

(** ** Insertion-ordered dictionaries *)

Section ordered_dict.
Context {K V : Type} `{EqDecision K}.

(** [d[k] = v]: an existing key keeps its slot and gets the new value, a new
    key goes to the end. *)
Fixpoint od_setitem (k : K) (v : V) (d : list (K * V)) : list (K * V) :=
  match d with
  | [] => [(k, v)]
  | (k', v') :: d' =>
      if decide (k' = k) then (k', v) :: d' else (k', v') :: od_setitem k v d'
  end.

(** [d.update(pairs)] *)
Definition od_update (d pairs : list (K * V)) : list (K * V) :=
  foldl (λ acc kv, od_setitem kv.1 kv.2 acc) d pairs.

(** [OrderedDict(pairs)] *)
Definition OrderedDict (pairs : list (K * V)) : list (K * V) :=
  od_update [] pairs.

(** A dictionary display [{k1: v1, k2: v2}]: the items are inserted from left
    to right. *)
Definition dict_display (pairs : list (K * V)) : list (K * V) :=
  od_update [] pairs.

(** [d.items()] *)
Definition od_items (d : list (K * V)) : list (K * V) := d.

(** [toolbox.choices_list], called with the pairs as its positional arguments *)
Definition choices_list (choices : list (K * V)) : list (K * V) :=
  OrderedDict choices.

(** [toolbox.get_choices(choices_list)] *)
Definition get_choices (choices_list : list (K * V)) : list (K * V) :=
  (λ kv, (kv.1, kv.2)) <$> od_items choices_list.
End ordered_dict.

(** ** Model class resolution *)

(** [s.split(sep)] for a one-character separator: every occurrence of [sep]
    ends a part, so a string with [n] separators has [n + 1] parts, empty parts
    included. *)
Fixpoint py_split (sep : ascii) (s : string) : list string :=
  match s with
  | EmptyString => [EmptyString]
  | String c s' =>
      if decide (c = sep) then EmptyString :: py_split sep s'
      else match py_split sep s' with
           | p :: ps => String c p :: ps
           | [] => [String c EmptyString]
           end
  end.

(** The number of occurrences of [sep] in [s]. *)
Definition count_char (sep : ascii) (s : string) : nat :=
  length (filter (λ c, c = sep) (list_ascii_of_string s)).

Section model_registry.
(** The model classes of the host framework. *)
Context {Model : Type}.

(** A registry call returns a model class or [None], or raises. *)
Definition lookup_fn : Type := string → string → result (option Model).

(** What the imports at the top of [toolbox.py] leave behind: where
    [django.apps] can be imported, [apps_get_model] is [apps.get_model];
    otherwise (Django before 1.7) [apps_get_model] is [None] and [get_model]
    is [django.db.models.get_model]. *)
Inductive registry : Type :=
  | Apps (apps_get_model : lookup_fn)
  | Legacy (get_model : lookup_fn).

(** The handler [except (LookupError, ValueError)]. *)
Definition is_lookup_or_value_error (e : exn) : bool :=
  match e with
  | LookupError | ValueError => true
  | _ => false
  end.

Definition bad_format_msg (model_path : string) : string :=
  "`" +:+ model_path +:+
  "` must have the following format: `app_name.model_name`.".

Definition not_installed_msg (model_path model_name : string) : string :=
  "`" +:+ model_path +:+ "` refers to a model `" +:+ model_name +:+
  "` that has not been installed.".

(** [toolbox.get_model_class_from_string(model_path)]. Unpacking the parts
    into two names raises [ValueError] unless there are exactly two. *)
Definition get_model_class_from_string
    (reg : registry) (model_path : string) : result Model :=
  match py_split "." model_path with
  | [app_name; model_name] =>
      rbind
        match reg with
        | Legacy get_model => get_model app_name model_name
        | Apps apps_get_model =>
            match apps_get_model app_name model_name with
            | Ok model => Ok model
            | Raise e =>
                if is_lookup_or_value_error e then Ok None else Raise e
            end
        end
        (λ model,
          match model with
          | None =>
              Raise (ImproperlyConfigured
                       (not_installed_msg model_path model_name))
          | Some m => Ok m
          end)
  | _ => Raise (ImproperlyConfigured (bad_format_msg model_path))
  end.

(** [getattr(settings_module, name)] with no default: the attributes of the
    settings object are a map from names to the path strings they hold. *)
Definition getattr (settings_module : gmap string string) (name : string)
    : result string :=
  match settings_module !! name with
  | Some v => Ok v
  | None => Raise AttributeError
  end.

(** [toolbox.get_model_class_from_settings(settings_module, settings_entry_name)] *)
Definition get_model_class_from_settings
    (reg : registry) (settings_module : gmap string string)
    (settings_entry_name : string) : result Model :=
  rbind (getattr settings_module settings_entry_name)
        (get_model_class_from_string reg).

(** The answer of the registry function that the imports selected. *)
Definition registry_call (reg : registry) (app_name model_name : string)
    : result (option Model) :=
  match reg with
  | Apps apps_get_model => apps_get_model app_name model_name
  | Legacy get_model => get_model app_name model_name
  end.

End model_registry.
Arguments lookup_fn : clear implicits.
Arguments registry : clear implicits.

(** ** MD5 and hexadecimal digests *)

(** [hashlib.md5], as RFC 1321 defines it, on 32-bit words held in [Z] with
    the wrap-around written out. Bytes inside the computation are numbers in
    [0, 256). *)
Module MD5.
Definition add32 (x y : Z) : Z := (x + y) mod 2 ^ 32.
Definition not32 (x : Z) : Z := Z.lxor x 0xffffffff.
Definition rotl32 (x c : Z) : Z :=
  Z.lor (Z.shiftl x c mod 2 ^ 32) (Z.shiftr x (32 - c)).

(** Per-round shift amounts. *)
Definition shifts : list Z :=
  [7; 12; 17; 22; 7; 12; 17; 22; 7; 12; 17; 22; 7; 12; 17; 22;
   5; 9; 14; 20; 5; 9; 14; 20; 5; 9; 14; 20; 5; 9; 14; 20;
   4; 11; 16; 23; 4; 11; 16; 23; 4; 11; 16; 23; 4; 11; 16; 23;
   6; 10; 15; 21; 6; 10; 15; 21; 6; 10; 15; 21; 6; 10; 15; 21].

(** [floor (2^32 * abs (sin (i + 1)))] for [i] from 0 to 63. *)
Definition sines : list Z :=
  [0xd76aa478; 0xe8c7b756; 0x242070db; 0xc1bdceee;
   0xf57c0faf; 0x4787c62a; 0xa8304613; 0xfd469501;
   0x698098d8; 0x8b44f7af; 0xffff5bb1; 0x895cd7be;
   0x6b901122; 0xfd987193; 0xa679438e; 0x49b40821;
   0xf61e2562; 0xc040b340; 0x265e5a51; 0xe9b6c7aa;
   0xd62f105d; 0x02441453; 0xd8a1e681; 0xe7d3fbc8;
   0x21e1cde6; 0xc33707d6; 0xf4d50d87; 0x455a14ed;
   0xa9e3e905; 0xfcefa3f8; 0x676f02d9; 0x8d2a4c8a;
   0xfffa3942; 0x8771f681; 0x6d9d6122; 0xfde5380c;
   0xa4beea44; 0x4bdecfa9; 0xf6bb4b60; 0xbebfbc70;
   0x289b7ec6; 0xeaa127fa; 0xd4ef3085; 0x04881d05;
   0xd9d4d039; 0xe6db99e5; 0x1fa27cf8; 0xc4ac5665;
   0xf4292244; 0x432aff97; 0xab9423a7; 0xfc93a039;
   0x655b59c3; 0x8f0ccc92; 0xffeff47d; 0x85845dd1;
   0x6fa87e4f; 0xfe2ce6e0; 0xa3014314; 0x4e0811a1;
   0xf7537e82; 0xbd3af235; 0x2ad7d2bb; 0xeb86d391].

Definition init : Z * Z * Z * Z :=
  (0x67452301, 0xefcdab89, 0x98badcfe, 0x10325476).

(** The [n] low bytes of [x], least significant first. *)
Fixpoint le_bytes (n : nat) (x : Z) : list Z :=
  match n with
  | O => []
  | S n' => x mod 256 :: le_bytes n' (x / 256)
  end.

(** A single 1 bit, zeros up to 56 modulo 64, then the bit length of the
    message on 64 bits. *)
Definition pad (msg : list Z) : list Z :=
  let len := Z.of_nat (length msg) in
  msg ++ [0x80] ++ replicate (Z.to_nat ((55 - len) mod 64)) 0
      ++ le_bytes 8 ((8 * len) mod 2 ^ 64).

Fixpoint words_le (bs : list Z) : list Z :=
  match bs with
  | b0 :: b1 :: b2 :: b3 :: bs' =>
      (b0 + 2 ^ 8 * b1 + 2 ^ 16 * b2 + 2 ^ 24 * b3) :: words_le bs'
  | _ => []
  end.

Fixpoint blocks (n : nat) (ws : list Z) : list (list Z) :=
  match n with
  | O => []
  | S n' => take 16 ws :: blocks n' (drop 16 ws)
  end.

Definition step (M : list Z) (st : Z * Z * Z * Z) (i : nat)
    : Z * Z * Z * Z :=
  let '(A, B, C, D) := st in
  let '(F, g) :=
    if (i <? 16)%nat then
      (Z.lor (Z.land B C) (Z.land (not32 B) D), i)
    else if (i <? 32)%nat then
      (Z.lor (Z.land D B) (Z.land (not32 D) C), ((5 * i + 1) mod 16)%nat)
    else if (i <? 48)%nat then
      (Z.lxor (Z.lxor B C) D, ((3 * i + 5) mod 16)%nat)
    else
      (Z.lxor C (Z.lor B (not32 D)), ((7 * i) mod 16)%nat) in
  let F := add32 (add32 (add32 F A) (sines !!! i)) (M !!! g) in
  (D, add32 B (rotl32 F (shifts !!! i)), B, C).

Definition compress (st : Z * Z * Z * Z) (M : list Z) : Z * Z * Z * Z :=
  let '(a0, b0, c0, d0) := st in
  let '(A, B, C, D) := foldl (step M) st (seq 0 64) in
  (add32 a0 A, add32 b0 B, add32 c0 C, add32 d0 D).

(** The 16 bytes of the digest. *)
Definition digest (msg : list byte) : list Z :=
  let ws := words_le (pad ((λ b, Z.of_N (Byte.to_N b)) <$> msg)) in
  let '(a, b, c, d) := foldl compress init (blocks (length ws / 16) ws) in
  le_bytes 4 a ++ le_bytes 4 b ++ le_bytes 4 c ++ le_bytes 4 d.
End MD5.

Definition hex_digit_lower (n : Z) : ascii :=
  default "0"%char (list_ascii_of_string "0123456789abcdef" !! Z.to_nat n).

Definition hex_digit_upper (n : Z) : ascii :=
  default "0"%char (list_ascii_of_string "0123456789ABCDEF" !! Z.to_nat n).

(** [.hexdigest()]: two lower-case hexadecimal digits per byte. *)
Fixpoint hexlify (bs : list Z) : string :=
  match bs with
  | [] => EmptyString
  | b :: bs' =>
      String (hex_digit_lower (b / 16))
        (String (hex_digit_lower (b mod 16)) (hexlify bs'))
  end.

(** A lower-case hexadecimal digit. *)
Definition lower_hex (c : ascii) : Prop :=
  c ∈ list_ascii_of_string "0123456789abcdef".

(** [s.encode()] *)
Definition encode (s : string) : list byte := list_byte_of_string s.

(** [hashlib.md5(data).hexdigest()] *)
Definition md5_hexdigest (data : list byte) : string :=
  hexlify (MD5.digest data).

(** ** URL query encoding *)

(** The bytes [urllib.parse.quote] never escapes: ASCII letters, digits and
    [_.-~]. *)
Definition always_safe (c : ascii) : bool :=
  let n := Z.of_N (N_of_ascii c) in
  ((65 <=? n)%Z && (n <=? 90)%Z) || ((97 <=? n)%Z && (n <=? 122)%Z)
  || ((48 <=? n)%Z && (n <=? 57)%Z)
  || bool_decide (c ∈ list_ascii_of_string "_.-~").

(** [urllib.parse.quote(s, safe)]: a byte that is neither always safe nor in
    [safe] becomes [%XX], upper-case. *)
Fixpoint quote (safe : list ascii) (s : string) : string :=
  match s with
  | EmptyString => EmptyString
  | String c s' =>
      if always_safe c || bool_decide (c ∈ safe) then String c (quote safe s')
      else
        let n := Z.of_N (N_of_ascii c) in
        String "%" (String (hex_digit_upper (n / 16))
                      (String (hex_digit_upper (n mod 16)) (quote safe s')))
  end.

(** A string of always-safe bytes only. *)
Definition safe_string (s : string) : Prop :=
  Forall (λ c, always_safe c = true) (list_ascii_of_string s).

(** [s.replace(' ', '+')] *)
Fixpoint replace_space_plus (s : string) : string :=
  match s with
  | EmptyString => EmptyString
  | String c s' =>
      String (if decide (c = " "%char) then "+"%char else c)
             (replace_space_plus s')
  end.

(** [urllib.parse.quote_plus(s)], with its default [safe=''] *)
Definition quote_plus (s : string) : string :=
  if bool_decide (" "%char ∈ list_ascii_of_string s)
  then replace_space_plus (quote [" "%char] s)
  else quote [] s.

(** The values put in the query: an [int] or a [str]. *)
Inductive qvalue : Type :=
  | QInt (n : Z)
  | QStr (s : string).

(** [str(v)] *)
Definition py_str (v : qvalue) : string :=
  match v with
  | QInt n => pretty n
  | QStr s => s
  end.

(** [sep.join(parts)] *)
Fixpoint join (sep : string) (parts : list string) : string :=
  match parts with
  | [] => EmptyString
  | [p] => p
  | p :: ps => p +:+ sep +:+ join sep ps
  end.

(** [urllib.parse.urlencode(query)] of a mapping with [str] keys: one
    [key=value] per item, in the order of [query.items()]. *)
Definition urlencode (query : list (string * qvalue)) : string :=
  join "&"
    ((λ kv, quote_plus kv.1 +:+ "=" +:+ quote_plus (py_str kv.2))
       <$> od_items query).

(** ** Gravatar template tags *)

(** What a user-like object exposes: [email] and [username], each a [str] or
    [None]. *)
Record user : Type := User {
  email : option string;
  username : option string
}.

(** The objects handed to the tags: [None], a [str], an instance of the user
    model, or some other object, for which an [int] stands. *)
Inductive pyobj : Type :=
  | PNone
  | PStr (s : string)
  | PInt (n : Z)
  | PUser (u : user).

Definition attr (a : option string) : pyobj :=
  match a with
  | Some s => PStr s
  | None => PNone
  end.

(** Truth value of an object in a condition. *)
Definition truthy (o : pyobj) : bool :=
  match o with
  | PNone => false
  | PStr s => negb (bool_decide (s = EmptyString))
  | PInt n => negb (n =? 0)%Z
  | PUser _ => true
  end.

(** [a or b] *)
Definition py_or (a b : pyobj) : pyobj := if truthy a then a else b.

(** [o.encode()]: only a [str] has the method. *)
Definition py_encode (o : pyobj) : result (list byte) :=
  match o with
  | PStr s => Ok (encode s)
  | _ => Raise AttributeError
  end.

(** The double quote character. *)
Definition dquote : string := String "034"%char EmptyString.

(** The value of the local [email] once the first [if] of
    [get_gravatar_url] has run. *)
Definition gravatar_identity (obj : pyobj) : pyobj :=
  match obj with
  | PUser u => py_or (attr (email u)) (attr (username u))
  | _ => obj
  end.

(** [gravatar.get_gravatar_url(obj, size, default)] *)
Definition get_gravatar_url (obj : pyobj) (size : Z) (default : string)
    : result string :=
  let email := gravatar_identity obj in
  if truthy email then
    rbind (py_encode email) (λ data,
      Ok ("http://www.gravatar.com/avatar/" +:+ md5_hexdigest data +:+ "/?"
          +:+ urlencode
                (dict_display [("size", QInt size); ("d", QStr default)])))
  else Ok EmptyString.

(** The tag [gravatar_get_url]. *)
Definition gravatar_get_url (obj : pyobj) (size : Z) (default : string)
    : result string :=
  get_gravatar_url obj size default.

(** The tag [gravatar_get_img]. *)
Definition gravatar_get_img (obj : pyobj) (size : Z) (default : string)
    : result string :=
  rbind (get_gravatar_url obj size default) (λ url,
    if truthy (PStr url)
    then Ok ("<img src=" +:+ dquote +:+ url +:+ dquote +:+ " class="
             +:+ dquote +:+ "gravatar" +:+ dquote +:+ ">")
    else Ok EmptyString).

(** The characters a URL built by [get_gravatar_url] can hold: the always-safe
    ones and the punctuation of the URL and of its query. *)
Definition url_char (c : ascii) : bool :=
  always_safe c || bool_decide (c ∈ list_ascii_of_string ":/?=&%+").

(** ** Form widgets *)

(** A form field as this code sees it: some data of its own, for which a name
    stands, and a reference to its widget object. *)
Record field : Type := Field {
  field_name : string;
  widget : nat
}.

Global Instance field_eq_dec : EqDecision field.
Proof. solve_decision. Defined.

(** The values held in attribute dictionaries: literals, and callables taking
    the field. A callable is a function of the field it is given; it does not
    write to the heap. *)
Inductive value : Type :=
  | VStr (s : string)
  | VCall (f : field → value).

(** The objects that are reached through references: dictionaries, and for
    each widget object the dictionary its [attrs] attribute points to. *)
Record heap : Type := Heap {
  dicts : gmap nat (gmap string value);
  widget_attrs : gmap nat nat
}.

(** Computations on the heap. [None] is a reference to an object that is not
    on the heap, which a well-formed heap excludes. *)
Definition M (A : Type) : Type := heap → option (A * heap).

Definition ret {A} (a : A) : M A := λ h, Some (a, h).

Definition bind {A B} (m : M A) (k : A → M B) : M B :=
  λ h, match m h with
       | Some (a, h') => k a h'
       | None => None
       end.

Declare Scope heap_scope.
Delimit Scope heap_scope with heap.
Notation "x <- m ;; k" := (bind m (λ x, k))
  (at level 100, m at next level, right associativity) : heap_scope.
Notation "m ;; k" := (bind m (λ _, k))
  (at level 100, right associativity) : heap_scope.

Local Open Scope heap_scope.

Definition dict_read (l : nat) : M (gmap string value) :=
  λ h, (λ d, (d, h)) <$> dicts h !! l.

Definition dict_alloc (d : gmap string value) : M nat :=
  λ h, let l := fresh (dom (dicts h)) in
       Some (l, Heap (<[l := d]> (dicts h)) (widget_attrs h)).

Definition dict_write (l : nat) (d : gmap string value) : M unit :=
  λ h, Some ((), Heap (<[l := d]> (dicts h)) (widget_attrs h)).

(** [dict(d)]: a new dictionary with the items of [d]. *)
Definition dict_copy (l : nat) : M nat :=
  d <- dict_read l ;; dict_alloc d.

(** [d.items()] *)
Definition dict_items (l : nat) : M (list (string * value)) :=
  d <- dict_read l ;; ret (map_to_list d).

(** [d[k] = v] *)
Definition dict_setitem (l : nat) (k : string) (v : value) : M unit :=
  d <- dict_read l ;; dict_write l (<[k := v]> d).

(** [d.update(other)] *)
Definition dict_update (l other : nat) : M unit :=
  d <- dict_read l ;; o <- dict_read other ;; dict_write l (o ∪ d).

(** [widget.attrs] *)
Definition get_widget_attrs (w : nat) : M nat :=
  λ h, (λ a, (a, h)) <$> widget_attrs h !! w.

(** [widget.attrs = a] *)
Definition set_widget_attrs (w a : nat) : M unit :=
  λ h, if decide (is_Some (widget_attrs h !! w))
       then Some ((), Heap (dicts h) (<[w := a]> (widget_attrs h)))
       else None.

(** Modelled from the spec: the widget's method that merges new attributes
    into the existing ones, [Widget.build_attrs(extra_attrs)] of the host
    framework. It returns a new dictionary: a copy of the widget's own
    attributes updated with [extra_attrs]. *)
Definition build_attrs (w extra_attrs : nat) : M nat :=
  self_attrs <- get_widget_attrs w ;;
  attrs <- dict_copy self_attrs ;;
  dict_update attrs extra_attrs ;;
  ret attrs.

(** A [for] loop over a list. *)
Fixpoint for_each {A} (l : list A) (body : A → M unit) : M unit :=
  match l with
  | [] => ret ()
  | x :: l' => body x ;; for_each l' body
  end.

(** A form: [form.fields], from field names to fields, in iteration order. *)
Record form : Type := Form {
  fields : list (string * field)
}.

(** [toolbox.set_form_widgets_attrs(form, attrs)]. The items of [attrs] are
    read once per field: the loop body writes to the copy only, never to
    [attrs]. *)
Definition set_form_widgets_attrs (frm : form) (attrs : nat) : M unit :=
  for_each (fields frm) (λ '(_, fld),
    attrs_ <- dict_copy attrs ;;
    items <- dict_items attrs ;;
    for_each items (λ '(name, val),
      match val with
      | VCall f => dict_setitem attrs_ name (f fld)
      | _ => ret ()
      end) ;;
    new_attrs <- build_attrs (widget fld) attrs_ ;;
    set_widget_attrs (widget fld) new_attrs).

(** The attribute dictionary of widget [w] in heap [h]. *)
Definition attrs_of (h : heap) (w : nat) : option (gmap string value) :=
  a ← widget_attrs h !! w; dicts h !! a.

(** The value an entry of [attrs] takes for a field: the result of the call
    for a callable, the value itself for a literal. *)
Definition resolve (fld : field) (v : value) : value :=
  match v with
  | VCall f => f fld
  | _ => v
  end.

(** What the inner loop of [set_form_widgets_attrs] makes of the copy [d]. *)
Definition set_callables (fld : field) (items : list (string * value))
    (d : gmap string value) : gmap string value :=
  foldl (λ d nv, match nv.2 with
                 | VCall f => <[nv.1 := f fld]> d
                 | _ => d
                 end) d items.

(** The heap after the turn of the loop for [fld], where [A] is the [attrs]
    mapping and [D] the attributes of the widget of [fld] before the turn:
    two dictionaries are new, the resolved copy and the merged attributes,
    and the widget points to the latter. *)
Definition field_heap (fld : field) (A D : gmap string value) (h : heap)
    : heap :=
  let l1 := fresh (dom (dicts h)) in
  let ds := <[l1 := resolve fld <$> A]> (dicts h) in
  let l2 := fresh (dom ds) in
  Heap (<[l2 := (resolve fld <$> A) ∪ D]> ds)
       (<[widget fld := l2]> (widget_attrs h)).

(** Every reference the call follows leads to an object on the heap: the
    [attrs] argument, the [attrs] of every widget, the widget of every field
    of the form. *)
Definition heap_wf (h : heap) (frm : form) (attrs : nat) : Prop :=
  is_Some (dicts h !! attrs)
  ∧ map_Forall (λ _ a, is_Some (dicts h !! a)) (widget_attrs h)
  ∧ Forall (λ nf, is_Some (widget_attrs h !! widget nf.2)) (fields frm).

Global Instance heap_wf_dec h frm attrs : Decision (heap_wf h frm attrs).
Proof. unfold heap_wf. apply _. Defined.

(** The example of the documentation: a literal [class] and a [data-n]
    computed from the field, applied to a form of two fields whose widgets
    have attributes already. The mapping is dictionary 0; the widgets 7 and 8
    hold dictionaries 1 and 2. *)
Definition example_attrs : gmap string value :=
  {[ "class" := VStr "x"; "data-n" := VCall (λ f, VStr (field_name f)) ]}.

Definition example_heap : heap :=
  Heap {[ 0%nat := example_attrs;
          1%nat := {[ "class" := VStr "old"; "id" := VStr "i1" ]};
          2%nat := {[ "id" := VStr "i2" ]} ]}
       {[ 7%nat := 1%nat; 8%nat := 2%nat ]}.

Definition example_form : form :=
  Form [("first", Field "first" 7); ("second", Field "second" 8)].

(** The same two fields, now holding one widget object between them. *)
Definition shared_widget_form : form :=
  Form [("first", Field "first" 7); ("second", Field "second" 7)].

Local Close Scope heap_scope.

(** * Properties *)

(** ** Choice lists *)

Section ordered_dict_facts.
Context {K V : Type} `{EqDecision K}.
Implicit Types (d pairs : list (K * V)).

Lemma od_setitem_fresh k v d :
  k ∉ d.*1 → od_setitem k v d = d ++ [(k, v)].
Proof.
  induction d as [|[k' v'] d IH]; simpl; [done|].
  rewrite not_elem_of_cons. intros [Hne Hnin].
  destruct (decide (k' = k)) as [->|_]; [done|].
  by rewrite IH.
Qed.

Lemma od_update_fresh pairs : ∀ d,
  NoDup pairs.*1 → (∀ k, k ∈ pairs.*1 → k ∉ d.*1) →
  od_update d pairs = d ++ pairs.
Proof.
  unfold od_update.
  induction pairs as [|[k v] pairs IH]; intros d Hnd Hdisj; simpl.
  - by rewrite app_nil_r.
  - apply NoDup_cons in Hnd as [Hk Hnd].
    rewrite od_setitem_fresh by (apply Hdisj; simpl; left).
    rewrite IH, <-app_assoc; [done|done|].
    intros k' Hk'. rewrite fmap_app, elem_of_app. simpl.
    rewrite list_elem_of_singleton. intros [Hin| ->]; [|done].
    by apply (Hdisj k'); [right|].
Qed.

Lemma get_choices_items d : get_choices d = d.
Proof.
  unfold get_choices, od_items.
  induction d as [|[k v] d IH]; simpl; [done|]. by f_equal.
Qed.
End ordered_dict_facts.

(** C5: for pairwise-distinct keys, [get_choices (choices_list pairs)] is
    exactly [pairs], in the original order. *)
Theorem get_choices_choices_list_roundtrip
    {K V : Type} `{EqDecision K} (pairs : list (K * V)) :
  NoDup pairs.*1 → get_choices (choices_list pairs) = pairs.
Proof.
  intros Hnd. rewrite get_choices_items.
  unfold choices_list, OrderedDict.
  rewrite od_update_fresh; [done|done|].
  intros k _. simpl. apply not_elem_of_nil.
Qed.

Lemma get_choices_choices_list_roundtrip_witness :
  NoDup [(1, "One"); (2, "Two")].*1 ∧
  get_choices (choices_list [(1, "One"); (2, "Two")]) = [(1, "One"); (2, "Two")].
Proof.
  split.
  - apply (bool_decide_unpack _). vm_compute. exact I.
  - apply (get_choices_choices_list_roundtrip [(1, "One"); (2, "Two")]).
    apply (bool_decide_unpack _). vm_compute. exact I.
Defined.





(** *** Choice lists with repeated keys *)

Section ordered_dict_keys.
Context {K V : Type} `{EqDecision K}.
Implicit Types (d pairs : list (K * V)).

Lemma od_setitem_keys k v d :
  (od_setitem k v d).*1 = if decide (k ∈ d.*1) then d.*1 else d.*1 ++ [k].
Proof.
  induction d as [|[k' v'] d IH].
  - case_decide as Hin; [by apply elem_of_nil in Hin|done].
  - rewrite fmap_cons. simpl od_setitem.
    destruct (decide (k' = k)) as [->|Hne].
    + rewrite decide_True by (simpl; left). done.
    + rewrite fmap_cons, IH. simpl fst.
      destruct (decide (k ∈ d.*1)) as [Hin|Hnin].
      * rewrite decide_True by by right. done.
      * rewrite decide_False; [done|].
        rewrite not_elem_of_cons. by split; [intros ->|].
Qed.

Lemma od_setitem_NoDup k v d : NoDup d.*1 → NoDup (od_setitem k v d).*1.
Proof.
  intros Hnd. rewrite od_setitem_keys. case_decide as Hk; [done|].
  apply NoDup_app. split_and!; [done| |apply NoDup_singleton].
  intros k' Hk' ->%list_elem_of_singleton. done.
Qed.

Lemma od_update_NoDup pairs : ∀ d, NoDup d.*1 → NoDup (od_update d pairs).*1.
Proof.
  unfold od_update.
  induction pairs as [|[k v] pairs IH]; intros d Hnd; simpl; [done|].
  by apply IH, od_setitem_NoDup.
Qed.

(** With keys that do not repeat, [d[k] = v] leaves exactly the items under
    the other keys and the item [(k, v)]. *)
Lemma od_setitem_elem k v d k0 v0 :
  NoDup d.*1 →
  (k0, v0) ∈ od_setitem k v d ↔
    (k0 = k ∧ v0 = v) ∨ (k0 ≠ k ∧ (k0, v0) ∈ d).
Proof.
  induction d as [|[k' v'] d IH]; simpl; intros Hnd.
  - rewrite list_elem_of_singleton, elem_of_nil. split.
    + intros [= -> ->]. by left.
    + intros [[-> ->]|[_ []]]. done.
  - apply NoDup_cons in Hnd as [Hk' Hnd].
    destruct (decide (k' = k)) as [->|Hne].
    + rewrite !elem_of_cons. split.
      * intros [[= -> ->]|Hin]; [by left|]. right. split; [|by right].
        intros ->. apply Hk'. apply list_elem_of_fmap. by exists (k, v0).
      * intros [[-> ->]|[Hne [[= -> ->]|Hin]]]; [by left|done|by right].
    + rewrite !elem_of_cons, IH by done. split.
      * intros [[= -> ->]|[[-> ->]|[? ?]]]; [|by left|].
        -- right. split; [done|by left].
        -- right. split; [done|by right].
      * intros [[-> ->]|[? [[= -> ->]|?]]]; [right; by left|by left|].
        right. right. done.
Qed.

Lemma od_update_elem pairs : ∀ d k v,
  NoDup d.*1 →
  (k, v) ∈ od_update d pairs ↔
    (∃ pre post, pairs = pre ++ (k, v) :: post ∧ k ∉ post.*1)
    ∨ ((k, v) ∈ d ∧ k ∉ pairs.*1).
Proof.
  unfold od_update.
  induction pairs as [|[k0 v0] pairs IH]; intros d k v Hnd; simpl.
  - split; [intros ?; right; split; [done|apply not_elem_of_nil]|].
    intros [([|??] & ? & Heq & _)|[? _]]; [discriminate Heq..|done].
  - rewrite IH by by apply od_setitem_NoDup.
    rewrite od_setitem_elem by done. split.
    + intros [(pre & post & -> & Hpost)|[[[-> ->]|[Hne Hin]] Hrest]].
      * left. by exists ((k0, v0) :: pre), post.
      * left. by exists [], pairs.
      * right. split; [done|]. rewrite not_elem_of_cons. done.
    + intros [(pre & post & Heq & Hpost)|[Hin Hk]].
      * destruct pre as [|p pre]; simpl in Heq.
        -- injection Heq as <- <- <-. right. split; [by left|done].
        -- injection Heq as <- ->. left. by exists pre, post.
      * rewrite not_elem_of_cons in Hk. destruct Hk as [Hne Hk].
        right. split; [|done]. right. done.
Qed.

Lemma od_update_keys pairs : ∀ d,
  (od_update d pairs).*1 =
    foldl (λ acc k, if decide (k ∈ acc) then acc else acc ++ [k])
          d.*1 pairs.*1.
Proof.
  unfold od_update.
  induction pairs as [|[k v] pairs IH]; intros d; simpl; [done|].
  by rewrite IH, od_setitem_keys.
Qed.

Lemma first_occurrences_foldl (l : list K) :
  foldl (λ acc k, if decide (k ∈ acc) then acc else acc ++ [k]) [] l
  = reverse (remove_dups (reverse l)).
Proof.
  induction l as [|x l IH] using rev_ind; [done|].
  rewrite foldl_app, reverse_snoc. simpl. rewrite IH.
  destruct (decide_rel elem_of x (reverse l)) as [Hin|Hnin].
  - rewrite decide_True; [done|].
    by rewrite elem_of_reverse, elem_of_remove_dups.
  - rewrite decide_False; [by rewrite reverse_cons|].
    by rewrite elem_of_reverse, elem_of_remove_dups.
Qed.
End ordered_dict_keys.

(** X1: whatever pairs are given, no key occurs twice in the choices. *)
Theorem get_choices_keys_NoDup
    {K V : Type} `{EqDecision K} (pairs : list (K * V)) :
  NoDup (get_choices (choices_list pairs)).*1.
Proof.
  rewrite get_choices_items. unfold choices_list, OrderedDict.
  apply od_update_NoDup. constructor.
Qed.

(** X2: for a key that is given several times the last value wins: a pair is
    among the choices exactly when it is the last of the given pairs with its
    key. *)
Theorem get_choices_last_value_wins
    {K V : Type} `{EqDecision K} (pairs : list (K * V)) (k : K) (v : V) :
  (k, v) ∈ get_choices (choices_list pairs) ↔
    ∃ pre post, pairs = pre ++ (k, v) :: post ∧ k ∉ post.*1.
Proof.
  rewrite get_choices_items. unfold choices_list, OrderedDict.
  rewrite od_update_elem by constructor.
  split; [|by left]. intros [?|[Hin _]]; [done|].
  by apply elem_of_nil in Hin.
Qed.

(** X3: the keys of the choices are the given keys in the order in which
    they first occur, each once. *)
Theorem get_choices_first_occurrence_order
    {K V : Type} `{EqDecision K} (pairs : list (K * V)) :
  (get_choices (choices_list pairs)).*1
  = reverse (remove_dups (reverse pairs.*1)).
Proof.
  rewrite get_choices_items. unfold choices_list, OrderedDict.
  rewrite od_update_keys. apply first_occurrences_foldl.
Qed.

(** X4: building the choice list again from its own choices changes
    nothing, whether or not the given keys repeat. *)
Theorem choices_list_get_choices_idempotent
    {K V : Type} `{EqDecision K} (pairs : list (K * V)) :
  choices_list (get_choices (choices_list pairs)) = choices_list pairs.
Proof.
  rewrite get_choices_items.
  unfold choices_list at 1. unfold OrderedDict at 1.
  rewrite od_update_fresh; [done| |].
  - unfold choices_list, OrderedDict. apply od_update_NoDup. constructor.
  - intros k _. apply not_elem_of_nil.
Qed.

(** ** Model class resolution *)

Lemma py_split_length sep s :
  length (py_split sep s) = S (count_char sep s).
Proof.
  unfold count_char. induction s as [|c s IH]; simpl; [done|].
  destruct (decide (c = sep)) as [->|Hne].
  - rewrite filter_cons_True by done. simpl. by rewrite IH.
  - rewrite filter_cons_False by done.
    destruct (py_split sep s); [discriminate IH|done].
Qed.

Example py_split_examples :
  py_split "." "myapp.MyModel" = ["myapp"; "MyModel"]
  ∧ py_split "." "badformat" = ["badformat"]
  ∧ py_split "." "a.b.c" = ["a"; "b"; "c"]
  ∧ py_split "." ".Model" = [EmptyString; "Model"]
  ∧ py_split "." "app." = ["app"; EmptyString]
  ∧ py_split "." EmptyString = [EmptyString].
Proof. by split_and!. Qed.

Section registry_facts.
Context {Model : Type}.
Implicit Types (reg : registry Model) (path : string).

Lemma get_model_class_from_string_two_parts reg path a b :
  py_split "." path = [a; b] →
  get_model_class_from_string reg path =
    match registry_call reg a b with
    | Ok (Some m) => Ok m
    | Ok None => Raise (ImproperlyConfigured (not_installed_msg path b))
    | Raise e =>
        match reg with
        | Apps _ =>
            if is_lookup_or_value_error e
            then Raise (ImproperlyConfigured (not_installed_msg path b))
            else Raise e
        | Legacy _ => Raise e
        end
    end.
Proof.
  intros Hsplit. unfold get_model_class_from_string. rewrite Hsplit.
  destruct reg as [f|g]; simpl.
  - destruct (f a b) as [[m|]|e]; simpl; [done|done|].
    by destruct (is_lookup_or_value_error e).
  - by destruct (g a b) as [[m|]|e].
Qed.

Lemma get_model_class_from_string_not_two_parts reg path :
  length (py_split "." path) ≠ 2%nat →
  get_model_class_from_string reg path =
    Raise (ImproperlyConfigured (bad_format_msg path)).
Proof.
  intros Hlen. unfold get_model_class_from_string.
  destruct (py_split "." path) as [|a [|b [|c parts]]]; simpl in *; done.
Qed.
End registry_facts.



(** C4 (as the code has it): for a path of two parts, if the registry yields
    no model, or [apps.get_model] raises a lookup or value error, the call
    raises [ImproperlyConfigured] with a message that holds the path and the
    model name; and every other error the call raises is the registry's
    own, passed on unchanged. *)
Theorem get_model_class_from_string_not_installed
    {Model : Type} (reg : registry Model) (path app_name model_name : string) :
  py_split "." path = [app_name; model_name] →
  (registry_call reg app_name model_name = Ok None ∨
   (∃ f e, reg = Apps f ∧ f app_name model_name = Raise e ∧
           is_lookup_or_value_error e = true) →
   get_model_class_from_string reg path =
     Raise (ImproperlyConfigured
              ("`" +:+ path +:+ "` refers to a model `" +:+ model_name +:+
               "` that has not been installed.")))
  ∧ (∀ e, get_model_class_from_string reg path = Raise e →
          e = ImproperlyConfigured
                ("`" +:+ path +:+ "` refers to a model `" +:+ model_name +:+
                 "` that has not been installed.")
          ∨ registry_call reg app_name model_name = Raise e).
Proof.
  intros Hsplit.
  rewrite (get_model_class_from_string_two_parts reg path _ _ Hsplit).
  split.
  - intros [-> | (f & e & -> & Hf & He)]; [done|].
    simpl. by rewrite Hf, He.
  - intros e. destruct (registry_call reg app_name model_name) as [[m|]|e'].
    + done.
    + intros [= <-]. by left.
    + destruct reg as [f|g]; [|intros [= <-]; by right].
      destruct (is_lookup_or_value_error e'); intros [= <-]; [by left|by right].
Qed.

Lemma get_model_class_from_string_not_installed_witness :
  get_model_class_from_string (Model := unit)
    (Apps (λ _ _, Raise LookupError)) "app.NonexistentModel" =
    Raise (ImproperlyConfigured
      "`app.NonexistentModel` refers to a model `NonexistentModel` that has not been installed.").
Proof.
  apply (get_model_class_from_string_not_installed (Model := unit)
           (Apps (λ _ _, Raise LookupError)) "app.NonexistentModel"
           "app" "NonexistentModel").
  - reflexivity.
  - right. by exists (λ _ _, Raise LookupError), LookupError.
Defined.

(** C4, the claim as stated, fails: without [django.apps] the call to
    [get_model] is not guarded, so a lookup error it raises comes out as it
    is; and an error of another kind raised by [apps.get_model] comes out
    as it is too. *)
Lemma get_model_class_from_string_error_escapes :
  py_split "." "app.Model" = ["app"; "Model"]
  ∧ registry_call (Model := unit) (Legacy (λ _ _, Raise LookupError))
      "app" "Model" = Raise LookupError
  ∧ get_model_class_from_string (Model := unit)
      (Legacy (λ _ _, Raise LookupError)) "app.Model" = Raise LookupError
  ∧ get_model_class_from_string (Model := unit)
      (Apps (λ _ _, Raise AppRegistryNotReady)) "app.Model" =
    Raise AppRegistryNotReady.
Proof. split_and!; reflexivity. Qed.

(** C9: when the settings object lacks the named attribute, the call fails
    with the attribute error of [getattr], whatever the registry. *)
Theorem get_model_class_from_settings_missing
    {Model : Type} (reg : registry Model)
    (settings_module : gmap string string) (settings_entry_name : string) :
  settings_module !! settings_entry_name = None →
  get_model_class_from_settings reg settings_module settings_entry_name =
    Raise AttributeError.
Proof.
  intros Hmiss. unfold get_model_class_from_settings, getattr.
  by rewrite Hmiss.
Qed.

Lemma get_model_class_from_settings_missing_witness :
  ({["OTHER_MODEL" := "app.Model"]} : gmap string string) !! "MY_MODEL" = None
  ∧ get_model_class_from_settings (Apps (λ _ _, Ok (Some ())))
      {["OTHER_MODEL" := "app.Model"]} "MY_MODEL" = Raise AttributeError.
Proof.
  split; [reflexivity|].
  apply (get_model_class_from_settings_missing
           (Apps (λ _ _, Ok (Some ()))) {["OTHER_MODEL" := "app.Model"]}
           "MY_MODEL").
  reflexivity.
Defined.

(** *** Paths and their parts *)

Lemma count_char_cons sep c s :
  count_char sep (String c s) =
    if decide (c = sep) then S (count_char sep s) else count_char sep s.
Proof.
  unfold count_char. simpl. case_decide.
  - by rewrite filter_cons_True.
  - by rewrite filter_cons_False.
Qed.

Lemma py_split_no_sep sep s : count_char sep s = 0%nat → py_split sep s = [s].
Proof.
  induction s as [|c s IH]; [done|].
  rewrite count_char_cons. simpl. case_decide; [done|].
  intros Hs. by rewrite IH.
Qed.

Lemma py_split_app_sep sep a b :
  count_char sep a = 0%nat →
  py_split sep (a +:+ String sep b) = a :: py_split sep b.
Proof.
  induction a as [|c a IH].
  - intros _. change (EmptyString +:+ String sep b) with (String sep b).
    simpl. by rewrite decide_True.
  - rewrite count_char_cons. case_decide as Hc; [done|]. intros Ha.
    change (String c a +:+ String sep b) with (String c (a +:+ String sep b)).
    simpl. rewrite decide_False by done. by rewrite IH.
Qed.

(** Joining the parts with the separator gives the string back. *)
Lemma join_py_split sep s :
  join (String sep EmptyString) (py_split sep s) = s.
Proof.
  induction s as [|c s IH]; [done|]. simpl.
  pose proof (py_split_length sep s) as Hlen.
  destruct (decide (c = sep)) as [->|Hne].
  - destruct (py_split sep s) as [|p ps]; [discriminate Hlen|].
    change (join (String sep EmptyString) (EmptyString :: p :: ps))
      with (String sep (join (String sep EmptyString) (p :: ps))).
    by rewrite IH.
  - destruct (py_split sep s) as [|p [|q ps]]; [discriminate Hlen|..].
    + simpl in *. by rewrite IH.
    + rewrite <-IH. reflexivity.
Qed.

(** No part holds the separator. *)
Lemma py_split_parts sep s :
  Forall (λ p, count_char sep p = 0%nat) (py_split sep s).
Proof.
  induction s as [|c s IH]; simpl; [by repeat constructor|].
  destruct (decide (c = sep)) as [->|Hne]; [by constructor|].
  pose proof (py_split_length sep s) as Hlen.
  destruct (py_split sep s) as [|p ps]; [discriminate Hlen|].
  apply Forall_cons in IH as [Hp Hps]. constructor; [|done].
  rewrite count_char_cons. by rewrite decide_False.
Qed.

Lemma py_split_two_iff sep s a b :
  py_split sep s = [a; b] ↔
    s = a +:+ String sep b
    ∧ count_char sep a = 0%nat ∧ count_char sep b = 0%nat.
Proof.
  split.
  - intros Hsplit.
    pose proof (join_py_split sep s) as Hjoin.
    pose proof (py_split_parts sep s) as Hparts.
    rewrite Hsplit in Hjoin, Hparts.
    apply Forall_cons in Hparts as [Ha [Hb _]%Forall_cons].
    split_and!; [|done|done]. rewrite <-Hjoin. simpl.
    clear. induction a as [|c a IH]; [done|].
    change (String c a +:+ String sep EmptyString +:+ b)
      with (String c (a +:+ String sep EmptyString +:+ b)).
    rewrite IH. reflexivity.
  - intros (-> & Ha & Hb).
    by rewrite py_split_app_sep, py_split_no_sep.
Qed.

(** X5: the call returns a model exactly when the path is [a.b] with no
    further dot in [a] or [b] and the registry resolves that pair to the
    model; the registry is asked for this pair and no other. *)
Theorem get_model_class_from_string_returns
    {Model : Type} (reg : registry Model) (path : string) (m : Model) :
  get_model_class_from_string reg path = Ok m ↔
    ∃ app_name model_name,
      path = app_name +:+ "." +:+ model_name
      ∧ count_char "." app_name = 0%nat ∧ count_char "." model_name = 0%nat
      ∧ registry_call reg app_name model_name = Ok (Some m).
Proof.
  split.
  - intros Hok.
    destruct (py_split "." path) as [|a [|b [|c parts]]] eqn:Hsplit;
      try (rewrite get_model_class_from_string_not_two_parts in Hok
             by (rewrite Hsplit; simpl; lia); discriminate Hok).
    rewrite (get_model_class_from_string_two_parts reg path a b Hsplit) in Hok.
    apply py_split_two_iff in Hsplit as (-> & Ha & Hb).
    exists a, b. split_and!; [done..|].
    destruct (registry_call reg a b) as [[m'|]|e]; [congruence|done|].
    destruct reg; [|done]. by destruct (is_lookup_or_value_error e).
  - intros (a & b & Hpath & Ha & Hb & Hcall).
    assert (py_split "." path = [a; b]) as Hsplit
      by (apply py_split_two_iff; done).
    rewrite (get_model_class_from_string_two_parts reg path a b Hsplit).
    by rewrite Hcall.
Qed.

(** X6: when the registry is [apps.get_model], the call never raises a
    lookup error or a value error: the registry's own are turned into
    [ImproperlyConfigured]. *)
Theorem get_model_class_from_string_apps_no_lookup_error
    {Model : Type} (apps_get_model : lookup_fn Model) (path : string)
    (e : exn) :
  get_model_class_from_string (Apps apps_get_model) path = Raise e →
  is_lookup_or_value_error e = false.
Proof.
  intros Hraise.
  destruct (py_split "." path) as [|a [|b [|c parts]]] eqn:Hsplit;
    try (rewrite get_model_class_from_string_not_two_parts in Hraise
           by (rewrite Hsplit; simpl; lia); by injection Hraise as <-).
  rewrite (get_model_class_from_string_two_parts _ path a b Hsplit) in Hraise.
  simpl in Hraise.
  destruct (apps_get_model a b) as [[m|]|e']; [done|by injection Hraise as <-|].
  destruct (is_lookup_or_value_error e') eqn:He'; by injection Hraise as <-.
Qed.

Lemma get_model_class_from_string_apps_no_lookup_error_witness :
  is_lookup_or_value_error
    (ImproperlyConfigured
       "`app.Model` refers to a model `Model` that has not been installed.")
  = false.
Proof.
  apply (get_model_class_from_string_apps_no_lookup_error (Model := unit)
           (λ _ _, Raise ValueError) "app.Model").
  reflexivity.
Defined.

(** X7: the settings variant returns a model exactly when the settings
    object has the attribute, the attribute holds a path [a.b] with one dot,
    and the registry resolves the pair to the model. *)
Theorem get_model_class_from_settings_returns
    {Model : Type} (reg : registry Model)
    (settings_module : gmap string string) (settings_entry_name : string)
    (m : Model) :
  get_model_class_from_settings reg settings_module settings_entry_name
    = Ok m ↔
    ∃ app_name model_name,
      settings_module !! settings_entry_name
        = Some (app_name +:+ "." +:+ model_name)
      ∧ count_char "." app_name = 0%nat ∧ count_char "." model_name = 0%nat
      ∧ registry_call reg app_name model_name = Ok (Some m).
Proof.
  unfold get_model_class_from_settings, getattr.
  destruct (settings_module !! settings_entry_name) as [path|]; simpl.
  - split.
    + intros Hok.
      destruct (py_split "." path) as [|a [|b [|c parts]]] eqn:Hsplit;
        try (rewrite get_model_class_from_string_not_two_parts in Hok
               by (rewrite Hsplit; simpl; lia); discriminate Hok).
      rewrite (get_model_class_from_string_two_parts reg path a b Hsplit)
        in Hok.
      apply py_split_two_iff in Hsplit as (-> & Ha & Hb).
      exists a, b. split_and!; [done..|].
      destruct (registry_call reg a b) as [[m'|]|e]; [congruence|done|].
      destruct reg; [|done]. by destruct (is_lookup_or_value_error e).
    + intros (a & b & [= ->] & Ha & Hb & Hcall).
      assert (py_split "." (a +:+ "." +:+ b) = [a; b]) as Hsplit
        by (apply py_split_two_iff; done).
      rewrite (get_model_class_from_string_two_parts reg _ a b Hsplit).
      by rewrite Hcall.
  - split; [done|]. by intros (a & b & Hnone & _).
Qed.

(** ** Gravatar *)

(** The test suite of RFC 1321, appendix A.5. *)
Example md5_test_suite :
  md5_hexdigest (encode EmptyString) = "d41d8cd98f00b204e9800998ecf8427e"
  ∧ md5_hexdigest (encode "a") = "0cc175b9c0f1b6a831c399e269772661"
  ∧ md5_hexdigest (encode "abc") = "900150983cd24fb0d6963f7d28e17f72"
  ∧ md5_hexdigest (encode "message digest")
    = "f96b697d7cb7938d525a2f31aaf161d0"
  ∧ md5_hexdigest (encode "abcdefghijklmnopqrstuvwxyz")
    = "c3fcd3d76192e4007dfb496cca67e13b"
  ∧ md5_hexdigest
      (encode "ABCDEFGHIJKLMNOPQRSTUVWXYZabcdefghijklmnopqrstuvwxyz0123456789")
    = "d174ab98d277d9f5a5611c2c9f419d9f"
  ∧ md5_hexdigest
      (encode ("1234567890123456789012345678901234567890"
               +:+ "1234567890123456789012345678901234567890"))
    = "57edf4a22be3c955ac49da2e2107b67a".
Proof. split_and!; vm_compute; reflexivity. Qed.

Example quote_plus_examples :
  quote_plus "identicon" = "identicon"
  ∧ quote_plus "a b" = "a+b"
  ∧ quote_plus "http://x.y/z?q=1&r=~" = "http%3A%2F%2Fx.y%2Fz%3Fq%3D1%26r%3D~"
  ∧ quote_plus "50%+" = "50%25%2B".
Proof. split_and!; vm_compute; reflexivity. Qed.

Section digest_facts.
Lemma le_bytes_length n x : length (MD5.le_bytes n x) = n.
Proof. revert x. induction n as [|n IH]; intros x; simpl; [done|]. by rewrite IH. Qed.

Lemma le_bytes_range n x :
  Forall (λ b, 0 ≤ b < 256)%Z (MD5.le_bytes n x).
Proof.
  revert x. induction n as [|n IH]; intros x; simpl; constructor; [|done].
  apply Z.mod_pos_bound. lia.
Qed.

Lemma digest_length data : length (MD5.digest data) = 16%nat.
Proof.
  unfold MD5.digest.
  destruct (foldl MD5.compress MD5.init _) as [[[a b] c] d].
  by rewrite !length_app, !le_bytes_length.
Qed.

Lemma digest_range data : Forall (λ b, 0 ≤ b < 256)%Z (MD5.digest data).
Proof.
  unfold MD5.digest.
  destruct (foldl MD5.compress MD5.init _) as [[[a b] c] d].
  rewrite !Forall_app. split_and!; apply le_bytes_range.
Qed.

Lemma hex_digit_lower_ok n : (0 ≤ n < 16)%Z → lower_hex (hex_digit_lower n).
Proof.
  intros Hn. unfold lower_hex.
  assert (n ∈ [0; 1; 2; 3; 4; 5; 6; 7; 8; 9; 10; 11; 12; 13; 14; 15]%Z) as Hin.
  { rewrite !elem_of_cons. lia. }
  rewrite !elem_of_cons, elem_of_nil in Hin.
  destruct_or!; simplify_eq; vm_compute; repeat constructor.
Qed.

Lemma hexlify_length bs :
  String.length (hexlify bs) = (2 * length bs)%nat.
Proof. induction bs as [|b bs IH]; simpl; [done|]. rewrite IH. lia. Qed.

Lemma hexlify_lower_hex bs :
  Forall (λ b, 0 ≤ b < 256)%Z bs →
  Forall lower_hex (list_ascii_of_string (hexlify bs)).
Proof.
  induction 1 as [|b bs Hb _ IH]; simpl; [constructor|].
  apply Forall_cons; split; [|apply Forall_cons; split; [|done]];
    apply hex_digit_lower_ok.
  - split; [apply Z.div_pos; lia|apply Z.div_lt_upper_bound; lia].
  - apply Z.mod_pos_bound. lia.
Qed.
End digest_facts.

Section query_facts.
Lemma string_app_cons (x : ascii) (a b : string) :
  String x a +:+ b = String x (a +:+ b).
Proof. reflexivity. Qed.

Lemma string_app_assoc (a b c : string) : (a +:+ b) +:+ c = a +:+ b +:+ c.
Proof.
  induction a as [|x a IH]; [done|].
  by rewrite !string_app_cons, IH.
Qed.

Lemma always_safe_not_space s :
  safe_string s → " "%char ∉ list_ascii_of_string s.
Proof.
  unfold safe_string. intros Hsafe Hin.
  rewrite Forall_forall in Hsafe. by specialize (Hsafe _ Hin).
Qed.

Lemma quote_safe_string safe s : safe_string s → quote safe s = s.
Proof.
  unfold safe_string.
  induction s as [|c s IH]; simpl; [done|].
  intros [Hc Hs]%Forall_cons. rewrite Hc. simpl. by rewrite IH.
Qed.

Lemma quote_plus_safe_string s : safe_string s → quote_plus s = s.
Proof.
  intros Hsafe. unfold quote_plus.
  rewrite bool_decide_false by by apply always_safe_not_space.
  by apply quote_safe_string.
Qed.

Lemma pretty_N_char_safe x : always_safe (pretty_N_char x) = true.
Proof. unfold pretty_N_char. by repeat case_match. Qed.

Lemma pretty_N_go_safe x : ∀ s, safe_string s → safe_string (pretty_N_go x s).
Proof.
  induction (N.lt_wf_0 x) as [x _ IH]; intros s Hs.
  destruct (decide (0 < x)%N) as [Hx|Hx].
  - rewrite pretty_N_go_step by done. apply IH; [by apply N.div_lt|].
    apply Forall_cons. split; [apply pretty_N_char_safe|done].
  - assert (x = 0%N) as -> by lia. by rewrite pretty_N_go_0.
Qed.

Lemma pretty_N_safe (x : N) : safe_string (pretty x).
Proof.
  unfold pretty, pretty_N. case_decide.
  - by repeat constructor.
  - apply pretty_N_go_safe. constructor.
Qed.

(** [str(n)] of an integer has digits and at most a sign: nothing in it is
    escaped. *)
Lemma pretty_Z_safe (n : Z) : safe_string (pretty n).
Proof.
  unfold pretty, pretty_Z. destruct n as [|p|p].
  - by repeat constructor.
  - apply pretty_N_safe.
  - apply Forall_cons. split; [done|apply pretty_N_safe].
Qed.

Lemma urlencode_size_d size default :
  urlencode (dict_display [("size", QInt size); ("d", QStr default)])
  = "size=" +:+ pretty size +:+ "&d=" +:+ quote_plus default.
Proof.
  change (dict_display [("size", QInt size); ("d", QStr default)])
    with [("size", QInt size); ("d", QStr default)].
  unfold urlencode, od_items. simpl.
  rewrite (quote_plus_safe_string (pretty size)) by apply pretty_Z_safe.
  change (quote_plus "size") with "size". change (quote_plus "d") with "d".
  by rewrite !string_app_assoc.
Qed.
End query_facts.

(** C3: for a non-empty identity string the URL is the fixed prefix, the MD5
    digest of the encoded string as 32 lower-case hexadecimal digits, [/?] and
    the percent-encoded query, [size] before [d]. *)
Theorem get_gravatar_url_format (s : string) (size : Z) (default : string) :
  s ≠ EmptyString →
  let digest := md5_hexdigest (encode s) in
  let query :=
    urlencode (dict_display [("size", QInt size); ("d", QStr default)]) in
  get_gravatar_url (PStr s) size default =
    Ok ("http://www.gravatar.com/avatar/" +:+ digest +:+ "/?" +:+ query)
  ∧ query = "size=" +:+ pretty size +:+ "&d=" +:+ quote_plus default
  ∧ String.length digest = 32%nat
  ∧ Forall lower_hex (list_ascii_of_string digest).
Proof.
  intros Hs digest query. split_and!.
  - unfold get_gravatar_url. simpl.
    by rewrite bool_decide_false.
  - apply urlencode_size_d.
  - unfold digest, md5_hexdigest. by rewrite hexlify_length, digest_length.
  - apply hexlify_lower_hex, digest_range.
Qed.

Lemma get_gravatar_url_format_witness :
  get_gravatar_url (PStr "a@b.com") 65 "identicon" =
    Ok "http://www.gravatar.com/avatar/357a20e8c56e69d6f9734d23ef9517e8/?size=65&d=identicon".
Proof.
  refine (proj1 (get_gravatar_url_format "a@b.com" 65 "identicon" _)).
  vm_compute. discriminate.
Defined.

(** C6: the string that is hashed is, for a user, the [email] attribute when
    it is non-empty and the [username] attribute otherwise, and for an input
    that is a string the input itself: the URL returned is the one built on
    the MD5 digest of that string, and it is empty when that string is. *)
Theorem get_gravatar_url_identity (size : Z) (default : string) :
  let url_of (identity : string) : result string :=
    if bool_decide (identity = EmptyString) then Ok EmptyString
    else Ok ("http://www.gravatar.com/avatar/"
             +:+ md5_hexdigest (encode identity) +:+ "/?"
             +:+ urlencode
                   (dict_display [("size", QInt size); ("d", QStr default)])) in
  (∀ u e, email u = Some e → e ≠ EmptyString →
          get_gravatar_url (PUser u) size default = url_of e)
  ∧ (∀ u n, email u = None ∨ email u = Some EmptyString →
            username u = Some n →
            get_gravatar_url (PUser u) size default = url_of n)
  ∧ (∀ u, email u = None ∨ email u = Some EmptyString →
          username u = None →
          get_gravatar_url (PUser u) size default = Ok EmptyString)
  ∧ (∀ s, get_gravatar_url (PStr s) size default = url_of s).
Proof.
  intros url_of. unfold url_of, get_gravatar_url. split_and!.
  - intros [em un] e Hem He. simpl in Hem. subst em. simpl.
    unfold py_or. simpl. rewrite !bool_decide_false by done. simpl.
    by rewrite bool_decide_false.
  - intros [em un] n Hem Hun. simpl in Hem, Hun. subst un. simpl.
    unfold py_or.
    destruct Hem as [-> | ->]; simpl; by case_bool_decide.
  - intros [em un] Hem Hun. simpl in Hem, Hun. subst un. simpl.
    unfold py_or. by destruct Hem as [-> | ->].
  - intros s. simpl. by case_bool_decide.
Qed.

Lemma get_gravatar_url_identity_witness :
  get_gravatar_url
    (PUser {| email := Some "a@b.com"; username := Some "bob" |})
    65 "identicon"
  = Ok "http://www.gravatar.com/avatar/357a20e8c56e69d6f9734d23ef9517e8/?size=65&d=identicon"
  ∧ get_gravatar_url
      (PUser {| email := Some EmptyString; username := Some "bob" |})
      65 "identicon"
    = Ok "http://www.gravatar.com/avatar/9f9d51bc70ef21ca5c14f307980a29d8/?size=65&d=identicon".
Proof.
  destruct (get_gravatar_url_identity 65 "identicon") as (Hemail & Huser & _).
  split.
  - refine (Hemail {| email := Some "a@b.com"; username := Some "bob" |}
              "a@b.com" _ _); [reflexivity|discriminate].
  - refine (Huser {| email := Some EmptyString; username := Some "bob" |}
              "bob" _ _); [by right|reflexivity].
Defined.

(** C7: an empty string and [None] give the empty string, without error. *)
Theorem get_gravatar_url_empty (size : Z) (default : string) :
  get_gravatar_url (PStr EmptyString) size default = Ok EmptyString
  ∧ get_gravatar_url PNone size default = Ok EmptyString
  ∧ gravatar_get_url (PStr EmptyString) size default = Ok EmptyString
  ∧ gravatar_get_url PNone size default = Ok EmptyString.
Proof. by split_and!. Qed.

(** C8: the image tag is empty exactly when the URL is, and otherwise it is
    the [img] element around that URL; an error of the URL computation is the
    error of the tag. *)
Theorem gravatar_get_img_url (obj : pyobj) (size : Z) (default : string) :
  gravatar_get_img obj size default =
    match gravatar_get_url obj size default with
    | Ok url =>
        if bool_decide (url = EmptyString) then Ok EmptyString
        else Ok ("<img src=" +:+ dquote +:+ url +:+ dquote +:+ " class="
                 +:+ dquote +:+ "gravatar" +:+ dquote +:+ ">")
    | Raise e => Raise e
    end
  ∧ (gravatar_get_img obj size default = Ok EmptyString
     ↔ gravatar_get_url obj size default = Ok EmptyString).
Proof.
  unfold gravatar_get_img, gravatar_get_url.
  destruct (get_gravatar_url obj size default) as [url|e]; simpl.
  - case_bool_decide as Hurl; simpl; [by subst|].
    split; [done|]. split; [discriminate|]. by intros [= ->].
  - done.
Qed.

(** *** What the URL is made of *)

Section url_facts.
Lemma list_ascii_of_string_app (a b : string) :
  list_ascii_of_string (a +:+ b)
  = list_ascii_of_string a ++ list_ascii_of_string b.
Proof.
  induction a as [|c a IH]; [done|].
  rewrite string_app_cons. simpl. by rewrite IH.
Qed.

Lemma always_safe_url_char c : always_safe c = true → url_char c = true.
Proof. unfold url_char. by intros ->. Qed.

Lemma lower_hex_safe c : lower_hex c → always_safe c = true.
Proof.
  unfold lower_hex. simpl. rewrite !elem_of_cons, elem_of_nil.
  intros H. destruct_or!; by subst.
Qed.

Lemma hex_digit_upper_safe n :
  (0 ≤ n < 16)%Z → always_safe (hex_digit_upper n) = true.
Proof.
  intros Hn.
  assert (n ∈ [0; 1; 2; 3; 4; 5; 6; 7; 8; 9; 10; 11; 12; 13; 14; 15]%Z) as Hin.
  { rewrite !elem_of_cons. lia. }
  rewrite !elem_of_cons, elem_of_nil in Hin.
  destruct_or!; by subst.
Qed.

Lemma safe_string_url_chars s :
  safe_string s → Forall (λ c, url_char c = true) (list_ascii_of_string s).
Proof.
  unfold safe_string. intros Hsafe.
  eapply Forall_impl; [exact Hsafe|]. intros c. apply always_safe_url_char.
Qed.

(** What [quote] leaves or writes: safe bytes, bytes of [safe], and the
    escapes. *)
Lemma quote_chars safe s :
  Forall (λ c, url_char c = true ∨ c ∈ safe)
         (list_ascii_of_string (quote safe s)).
Proof.
  induction s as [|c s IH]; simpl; [constructor|].
  destruct (always_safe c) eqn:Hc; simpl.
  - constructor; [|done]. left. by apply always_safe_url_char.
  - pose proof (N_ascii_bounded c) as Hb.
    case_bool_decide as Hsafe; simpl.
    + constructor; [by right|done].
    + apply Forall_cons. split; [by left|].
      apply Forall_cons. split.
      { left. apply always_safe_url_char, hex_digit_upper_safe. split.
        - apply Z.div_pos; lia.
        - apply Z.div_lt_upper_bound; lia. }
      apply Forall_cons. split; [|done].
      left. apply always_safe_url_char, hex_digit_upper_safe.
      apply Z.mod_pos_bound. lia.
Qed.

Lemma replace_space_plus_chars s :
  Forall (λ c, url_char c = true ∨ c ∈ [" "%char]) (list_ascii_of_string s) →
  Forall (λ c, url_char c = true) (list_ascii_of_string (replace_space_plus s)).
Proof.
  induction s as [|c s IH]; simpl; [constructor|].
  intros [Hc Hs]%Forall_cons. constructor; [|by apply IH].
  case_decide as Hsp; [done|].
  destruct Hc as [Hc|Hc%list_elem_of_singleton]; done.
Qed.

Lemma quote_plus_chars s :
  Forall (λ c, url_char c = true) (list_ascii_of_string (quote_plus s)).
Proof.
  unfold quote_plus. case_bool_decide.
  - apply replace_space_plus_chars, quote_chars.
  - eapply Forall_impl; [apply (quote_chars [] s)|].
    intros c [Hc|Hc]; [done|by apply elem_of_nil in Hc].
Qed.

Lemma gravatar_url_chars data size default :
  Forall (λ c, url_char c = true)
    (list_ascii_of_string
       ("http://www.gravatar.com/avatar/" +:+ md5_hexdigest data +:+ "/?"
        +:+ urlencode (dict_display [("size", QInt size); ("d", QStr default)]))).
Proof.
  rewrite urlencode_size_d, !list_ascii_of_string_app, !Forall_app.
  split_and!.
  - by apply (bool_decide_unpack _).
  - eapply Forall_impl; [apply hexlify_lower_hex, digest_range|].
    intros c Hc. by apply always_safe_url_char, lower_hex_safe.
  - by apply (bool_decide_unpack _).
  - by apply (bool_decide_unpack _).
  - apply safe_string_url_chars, pretty_Z_safe.
  - by apply (bool_decide_unpack _).
  - apply quote_plus_chars.
Qed.

Lemma count_char_url_char c s :
  url_char c = false →
  Forall (λ x, url_char x = true) (list_ascii_of_string s) →
  count_char c s = 0%nat.
Proof.
  intros Hc. unfold count_char.
  induction 1 as [|x l Hx _ IH]; [done|].
  rewrite filter_cons_False; [done|]. intros ->. congruence.
Qed.

Lemma get_gravatar_url_Ok_inv obj size default url :
  get_gravatar_url obj size default = Ok url →
  url = EmptyString ∧ truthy (gravatar_identity obj) = false
  ∨ ∃ s, gravatar_identity obj = PStr s ∧ s ≠ EmptyString
         ∧ url = "http://www.gravatar.com/avatar/"
                 +:+ md5_hexdigest (encode s) +:+ "/?"
                 +:+ urlencode (dict_display
                                  [("size", QInt size); ("d", QStr default)]).
Proof.
  unfold get_gravatar_url.
  destruct (truthy (gravatar_identity obj)) eqn:Htruthy.
  - destruct (gravatar_identity obj) as [|s|n|u]; simpl; try done.
    intros [= <-]. right. exists s. split_and!; [done| |done].
    intros ->. done.
  - intros [= <-]. by left.
Qed.
End url_facts.

(** X8: the URL is empty exactly when there is no identity to hash: the
    input, or for a user the email and then the username, is [None], empty
    or zero. *)
Theorem get_gravatar_url_empty_iff
    (obj : pyobj) (size : Z) (default : string) :
  get_gravatar_url obj size default = Ok EmptyString
  ↔ truthy (gravatar_identity obj) = false.
Proof.
  split.
  - intros [[_ Hfalsy]|(s & _ & _ & Hurl)]%get_gravatar_url_Ok_inv; [done|].
    discriminate Hurl.
  - intros Hfalsy. unfold get_gravatar_url. by rewrite Hfalsy.
Qed.

(** X10: a URL that is returned holds ASCII letters, digits and the
    characters [_.-~:/?=&%+] only, whatever the identity and the default
    style are. *)
Theorem get_gravatar_url_chars
    (obj : pyobj) (size : Z) (default : string) (url : string) :
  get_gravatar_url obj size default = Ok url →
  Forall (λ c, url_char c = true) (list_ascii_of_string url).
Proof.
  intros [[-> _]|(s & _ & _ & ->)]%get_gravatar_url_Ok_inv.
  - constructor.
  - apply gravatar_url_chars.
Qed.

Lemma get_gravatar_url_chars_witness :
  Forall (λ c, url_char c = true)
    (list_ascii_of_string
       "http://www.gravatar.com/avatar/357a20e8c56e69d6f9734d23ef9517e8/?size=65&d=a+b%3Cc%3E").
Proof.
  apply (get_gravatar_url_chars (PStr "a@b.com") 65 "a b<c>").
  vm_compute. reflexivity.
Defined.

(** X11: the image tag, when it is not empty, is the fixed text around a URL
    that holds no double quote and no angle bracket, so the [src] attribute
    ends where the tag closes it. *)
Theorem gravatar_get_img_well_formed
    (obj : pyobj) (size : Z) (default : string) (tag : string) :
  gravatar_get_img obj size default = Ok tag →
  tag = EmptyString
  ∨ ∃ url,
      tag = "<img src=" +:+ dquote +:+ url +:+ dquote +:+ " class="
            +:+ dquote +:+ "gravatar" +:+ dquote +:+ ">"
      ∧ count_char "034" url = 0%nat
      ∧ count_char "<" url = 0%nat ∧ count_char ">" url = 0%nat.
Proof.
  unfold gravatar_get_img.
  destruct (get_gravatar_url obj size default) as [url|e] eqn:Hurl;
    simpl; [|done].
  case_bool_decide as Hempty; simpl; intros [= <-]; [by left|].
  right. exists url. split; [done|].
  destruct (get_gravatar_url_Ok_inv _ _ _ _ Hurl)
    as [[-> _]|(s & _ & _ & ->)]; [done|].
  pose proof (gravatar_url_chars (encode s) size default) as Hchars.
  split_and!; apply count_char_url_char; done.
Qed.

Lemma gravatar_get_img_well_formed_witness :
  let tag :=
    "<img src=" +:+ dquote
    +:+ "http://www.gravatar.com/avatar/357a20e8c56e69d6f9734d23ef9517e8/?size=65&d=identicon"
    +:+ dquote +:+ " class=" +:+ dquote +:+ "gravatar" +:+ dquote +:+ ">" in
  tag = EmptyString
  ∨ ∃ url,
      tag = "<img src=" +:+ dquote +:+ url +:+ dquote +:+ " class="
            +:+ dquote +:+ "gravatar" +:+ dquote +:+ ">"
      ∧ count_char "034" url = 0%nat
      ∧ count_char "<" url = 0%nat ∧ count_char ">" url = 0%nat.
Proof.
  apply (gravatar_get_img_well_formed (PStr "a@b.com") 65 "identicon").
  vm_compute. reflexivity.
Defined.

(** X12: for a default style of letters, digits and [_.-~] the query is
    literally [size=<size>&d=<style>]. *)
Theorem get_gravatar_url_plain_style
    (s : string) (size : Z) (default : string) :
  s ≠ EmptyString → safe_string default →
  get_gravatar_url (PStr s) size default =
    Ok ("http://www.gravatar.com/avatar/" +:+ md5_hexdigest (encode s)
        +:+ "/?size=" +:+ pretty size +:+ "&d=" +:+ default).
Proof.
  intros Hs Hdefault. unfold get_gravatar_url. simpl.
  rewrite bool_decide_false by done. simpl.
  rewrite urlencode_size_d, (quote_plus_safe_string default) by done.
  do 2 f_equal.
Qed.

Lemma get_gravatar_url_plain_style_witness :
  get_gravatar_url (PStr "bob") 80 "retro" =
    Ok "http://www.gravatar.com/avatar/9f9d51bc70ef21ca5c14f307980a29d8/?size=80&d=retro".
Proof.
  apply (get_gravatar_url_plain_style "bob" 80 "retro").
  - discriminate.
  - apply (bool_decide_unpack _). vm_compute. exact I.
Defined.

(** ** Form widgets *)

Section heap_facts.
Implicit Types (h : heap) (d A D : gmap string value) (fld : field).

Lemma heap_eta h : Heap (dicts h) (widget_attrs h) = h.
Proof. by destruct h. Qed.

Lemma fresh_dict_ne h l : is_Some (dicts h !! l) → l ≠ fresh (dom (dicts h)).
Proof.
  intros Hl%elem_of_dom ->. by apply (is_fresh (dom (dicts h))).
Qed.

Lemma bind_run {X Y} (m : M X) (k : X → M Y) h x h' :
  m h = Some (x, h') → bind m k h = k x h'.
Proof. unfold bind. by intros ->. Qed.

Lemma dict_read_run h l d : dicts h !! l = Some d → dict_read l h = Some (d, h).
Proof. unfold dict_read. by intros ->. Qed.

Lemma dict_copy_run h l d :
  dicts h !! l = Some d →
  dict_copy l h =
    Some (fresh (dom (dicts h)),
          Heap (<[fresh (dom (dicts h)) := d]> (dicts h)) (widget_attrs h)).
Proof.
  intros Hl. unfold dict_copy.
  by rewrite (bind_run _ _ _ _ _ (dict_read_run _ _ _ Hl)).
Qed.

Lemma dict_items_run h l d :
  dicts h !! l = Some d → dict_items l h = Some (map_to_list d, h).
Proof.
  intros Hl. unfold dict_items.
  by rewrite (bind_run _ _ _ _ _ (dict_read_run _ _ _ Hl)).
Qed.

Lemma dict_setitem_run h l d k v :
  dicts h !! l = Some d →
  dict_setitem l k v h =
    Some ((), Heap (<[l := <[k := v]> d]> (dicts h)) (widget_attrs h)).
Proof.
  intros Hl. unfold dict_setitem.
  by rewrite (bind_run _ _ _ _ _ (dict_read_run _ _ _ Hl)).
Qed.

Lemma dict_update_run h l other d o :
  dicts h !! l = Some d → dicts h !! other = Some o →
  dict_update l other h =
    Some ((), Heap (<[l := o ∪ d]> (dicts h)) (widget_attrs h)).
Proof.
  intros Hl Ho. unfold dict_update.
  rewrite (bind_run _ _ _ _ _ (dict_read_run _ _ _ Hl)).
  by rewrite (bind_run _ _ _ _ _ (dict_read_run _ _ _ Ho)).
Qed.

Lemma inner_loop_run fld cp items : ∀ h d,
  dicts h !! cp = Some d →
  for_each items (λ '(name, val),
    match val with
    | VCall f => dict_setitem cp name (f fld)
    | _ => ret ()
    end) h =
  Some ((), Heap (<[cp := set_callables fld items d]> (dicts h))
                 (widget_attrs h)).
Proof.
  induction items as [|[name val] items IH]; intros h d Hcp; simpl.
  - unfold ret. by rewrite insert_id, heap_eta.
  - destruct val as [s|f].
    + unfold bind, ret. by apply IH.
    + rewrite (bind_run _ _ _ _ _ (dict_setitem_run _ _ _ name (f fld) Hcp)).
      rewrite (IH _ (<[name := f fld]> d)); simpl.
      * by rewrite insert_insert_eq.
      * by rewrite lookup_insert_eq.
Qed.

Lemma set_callables_lookup fld items : ∀ d k,
  NoDup items.*1 →
  set_callables fld items d !! k =
    match (list_to_map items : gmap string value) !! k with
    | Some (VCall f) => Some (f fld)
    | _ => d !! k
    end.
Proof.
  induction items as [|[name val] items IH]; intros d k Hnd; simpl; [done|].
  apply NoDup_cons in Hnd as [Hname Hnd]. simpl in Hname.
  unfold set_callables in *. simpl. rewrite IH by done.
  destruct (decide (name = k)) as [->|Hne].
  - rewrite lookup_insert_eq.
    rewrite (not_elem_of_list_to_map_1 _ k) by done.
    destruct val; [done|]. by rewrite lookup_insert_eq.
  - rewrite lookup_insert_ne by done.
    assert (match val with
            | VStr _ => d
            | VCall f => <[name := f fld]> d
            end !! k = d !! k) as ->; [|done].
    destruct val; [done|]. by rewrite lookup_insert_ne.
Qed.

Lemma set_callables_items fld A :
  set_callables fld (map_to_list A) A = resolve fld <$> A.
Proof.
  apply map_eq. intros k.
  rewrite set_callables_lookup by apply NoDup_fst_map_to_list.
  rewrite list_to_map_to_list, lookup_fmap.
  by destruct (A !! k) as [[|]|].
Qed.

Lemma set_widget_attrs_run h w a :
  is_Some (widget_attrs h !! w) →
  set_widget_attrs w a h =
    Some ((), Heap (dicts h) (<[w := a]> (widget_attrs h))).
Proof. intros Hw. unfold set_widget_attrs. by rewrite decide_True. Qed.

Lemma build_attrs_run h w a D extra E :
  widget_attrs h !! w = Some a → dicts h !! a = Some D →
  dicts h !! extra = Some E →
  build_attrs w extra h =
    Some (fresh (dom (dicts h)),
          Heap (<[fresh (dom (dicts h)) := E ∪ D]> (dicts h))
               (widget_attrs h)).
Proof.
  intros Hw Ha He. unfold build_attrs.
  rewrite (bind_run _ _ h a h) by (unfold get_widget_attrs; by rewrite Hw).
  rewrite (bind_run _ _ _ _ _ (dict_copy_run _ _ _ Ha)).
  set (l := fresh (dom (dicts h))).
  assert (extra ≠ l) as Hne by (apply fresh_dict_ne; by rewrite He).
  erewrite bind_run; last first.
  { apply (dict_update_run _ l extra D E); simpl.
    - by rewrite lookup_insert_eq.
    - by rewrite lookup_insert_ne. }
  unfold ret. simpl. by rewrite insert_insert_eq.
Qed.

(** One turn of the loop over the fields. *)
Lemma field_step attrs A n fld flds h a D :
  dicts h !! attrs = Some A →
  widget_attrs h !! widget fld = Some a → dicts h !! a = Some D →
  set_form_widgets_attrs (Form ((n, fld) :: flds)) attrs h =
  set_form_widgets_attrs (Form flds) attrs (field_heap fld A D h).
Proof.
  intros Hattrs Hw Ha. unfold set_form_widgets_attrs, field_heap. simpl.
  set (l1 := fresh (dom (dicts h))).
  assert (attrs ≠ l1) as Hne1 by (apply fresh_dict_ne; by rewrite Hattrs).
  assert (a ≠ l1) as Hne2 by (apply fresh_dict_ne; by rewrite Ha).
  match goal with
  | |- bind ?m _ h = _ ?h' => assert (m h = Some ((), h')) as Hrun
  end; [|by rewrite (bind_run _ _ _ _ _ Hrun)].
  rewrite (bind_run _ _ _ _ _ (dict_copy_run _ _ _ Hattrs)). fold l1.
  erewrite bind_run; last first.
  { apply (dict_items_run _ attrs A). simpl. by rewrite lookup_insert_ne. }
  erewrite bind_run; last first.
  { apply (inner_loop_run fld l1 _ _ A). simpl. by rewrite lookup_insert_eq. }
  simpl. rewrite set_callables_items, insert_insert_eq.
  erewrite bind_run; last first.
  { apply (build_attrs_run _ (widget fld) a D l1 (resolve fld <$> A)); simpl.
    - done.
    - by rewrite lookup_insert_ne.
    - by rewrite lookup_insert_eq. }
  rewrite set_widget_attrs_run by (simpl; by rewrite Hw).
  done.
Qed.

Lemma field_heap_dicts fld A D h : dicts h ⊆ dicts (field_heap fld A D h).
Proof.
  unfold field_heap. simpl.
  etrans; [|apply insert_subseteq, not_elem_of_dom, is_fresh].
  apply insert_subseteq, not_elem_of_dom, is_fresh.
Qed.

Lemma attrs_of_weaken h h' w D :
  dicts h ⊆ dicts h' → widget_attrs h' !! w = widget_attrs h !! w →
  attrs_of h w = Some D → attrs_of h' w = Some D.
Proof.
  unfold attrs_of. intros Hsub ->.
  destruct (widget_attrs h !! w) as [a|]; simpl; [|done].
  intros Ha. by apply (lookup_weaken _ _ _ _ Ha).
Qed.

Lemma field_heap_attrs_of_same fld A D h :
  attrs_of (field_heap fld A D h) (widget fld)
  = Some ((resolve fld <$> A) ∪ D).
Proof.
  unfold attrs_of, field_heap. simpl.
  rewrite lookup_insert_eq. simpl. by rewrite lookup_insert_eq.
Qed.

Lemma field_heap_attrs_of_other fld A D h w D' :
  w ≠ widget fld → attrs_of h w = Some D' →
  attrs_of (field_heap fld A D h) w = Some D'.
Proof.
  intros Hne. apply attrs_of_weaken; [apply field_heap_dicts|].
  unfold field_heap. simpl. by rewrite lookup_insert_ne.
Qed.

Lemma field_heap_wf fld A D h :
  map_Forall (λ _ a, is_Some (dicts h !! a)) (widget_attrs h) →
  map_Forall (λ _ a, is_Some (dicts (field_heap fld A D h) !! a))
             (widget_attrs (field_heap fld A D h)).
Proof.
  intros Hok w a. unfold field_heap at 2. simpl.
  destruct (decide (widget fld = w)) as [->|Hne].
  - rewrite lookup_insert_eq. intros [= <-].
    unfold field_heap. simpl. by rewrite lookup_insert_eq.
  - rewrite lookup_insert_ne by done. intros Hw.
    destruct (Hok w a Hw) as [d Hd]. exists d.
    by apply (lookup_weaken _ _ _ _ Hd), field_heap_dicts.
Qed.

Lemma resolve_union_absorb fld fld0 A D :
  (resolve fld <$> A) ∪ ((resolve fld0 <$> A) ∪ D) = (resolve fld <$> A) ∪ D.
Proof.
  apply map_eq. intros k. rewrite !lookup_union, !lookup_fmap.
  by destruct (A !! k), (D !! k).
Qed.

Lemma resolve_union_frame fld A D k :
  A !! k = None → ((resolve fld <$> A) ∪ D) !! k = D !! k.
Proof.
  intros Hk. rewrite lookup_union, lookup_fmap, Hk. simpl.
  by destruct (D !! k).
Qed.

Lemma resolve_union_entry fld A D k v :
  A !! k = Some v → ((resolve fld <$> A) ∪ D) !! k = Some (resolve fld v).
Proof.
  intros Hk. rewrite lookup_union, lookup_fmap, Hk. simpl.
  by destruct (D !! k).
Qed.

(** The loop over the fields: it runs to the end on a well-formed heap,
    writes to new dictionaries only, and leaves each widget with the merge
    computed for the last field that holds it. *)
Lemma fields_loop attrs A : ∀ flds h,
  dicts h !! attrs = Some A →
  map_Forall (λ _ a, is_Some (dicts h !! a)) (widget_attrs h) →
  Forall (λ nf, is_Some (widget_attrs h !! widget nf.2)) flds →
  ∃ h', set_form_widgets_attrs (Form flds) attrs h = Some ((), h')
    ∧ dicts h ⊆ dicts h'
    ∧ (∀ w, w ∉ (widget ∘ snd) <$> flds →
            widget_attrs h' !! w = widget_attrs h !! w)
    ∧ (∀ w D, attrs_of h w = Some D →
         ∃ D', attrs_of h' w = Some D'
               ∧ ∀ k, A !! k = None → D' !! k = D !! k)
    ∧ (∀ pre n fld post D,
         flds = pre ++ (n, fld) :: post →
         widget fld ∉ (widget ∘ snd) <$> post →
         attrs_of h (widget fld) = Some D →
         attrs_of h' (widget fld) = Some ((resolve fld <$> A) ∪ D)).
Proof.
  induction flds as [|[n0 f0] flds IH]; intros h Hattrs Hok Hflds.
  { exists h. split_and!; [done|done|done|by eauto|].
    intros [|??] ???? Hnil; discriminate Hnil. }
  apply Forall_cons in Hflds as [[a0 Hw0] Hflds]. simpl in Hw0.
  destruct (Hok _ _ Hw0) as [D0 Ha0].
  assert (attrs_of h (widget f0) = Some D0) as Hattrs0.
  { unfold attrs_of. by rewrite Hw0. }
  rewrite (field_step attrs A n0 f0 flds h a0 D0) by done.
  set (h1 := field_heap f0 A D0 h).
  assert (dicts h ⊆ dicts h1) as Hsub1 by apply field_heap_dicts.
  destruct (IH h1) as (h' & Hrun & Hsub & Hframe & Hkeep & Hlast).
  { by apply (lookup_weaken _ _ _ _ Hattrs). }
  { by apply field_heap_wf. }
  { eapply Forall_impl; [exact Hflds|]. intros [n f] [a Hf]. simpl in *.
    unfold h1, field_heap. simpl.
    destruct (decide (widget f0 = widget f)) as [->|Hne].
    - rewrite lookup_insert_eq. eauto.
    - rewrite lookup_insert_ne by done. eauto. }
  exists h'. split_and!.
  - done.
  - by etrans.
  - intros w Hw. rewrite fmap_cons, not_elem_of_cons in Hw.
    destruct Hw as [Hne Hw]. simpl in Hne.
    rewrite Hframe by done.
    unfold h1, field_heap. simpl. by rewrite lookup_insert_ne.
  - intros w D HD.
    destruct (decide (w = widget f0)) as [->|Hne].
    + assert (D = D0) as -> by congruence.
      destruct (Hkeep (widget f0) _ (field_heap_attrs_of_same f0 A D0 h))
        as (D' & HD' & Hk).
      exists D'. split; [done|]. intros k HAk.
      by rewrite Hk, resolve_union_frame.
    + apply Hkeep. by apply field_heap_attrs_of_other.
  - intros pre n fld post D Hdec Hnin HD.
    destruct pre as [|p pre]; simpl in Hdec.
    + injection Hdec as <- <- <-.
      assert (D = D0) as -> by congruence.
      apply (attrs_of_weaken h1); [done|by apply Hframe|].
      apply field_heap_attrs_of_same.
    + injection Hdec as <- ->.
      destruct (decide (widget fld = widget f0)) as [Heq|Hne].
      * assert (D = D0) as -> by (rewrite Heq in HD; congruence).
        rewrite <-(resolve_union_absorb fld f0 A D0).
        apply (Hlast pre n fld post); [done|done|].
        rewrite Heq. apply field_heap_attrs_of_same.
      * apply (Hlast pre n fld post); [done|done|].
        by apply field_heap_attrs_of_other.
Qed.

(** Every widget of the form has a last field that holds it. *)
Lemma last_field_with_widget (flds : list (string * field)) w :
  w ∈ (widget ∘ snd) <$> flds →
  ∃ pre n fld post, flds = pre ++ (n, fld) :: post ∧ widget fld = w
                    ∧ w ∉ (widget ∘ snd) <$> post.
Proof.
  induction flds as [|[n0 f0] flds IH]; simpl; [by intros ?%elem_of_nil|].
  intros Hin.
  destruct (decide (w ∈ (widget ∘ snd) <$> flds)) as [Hrest|Hrest].
  - destruct (IH Hrest) as (pre & n & fld & post & -> & Hw & Hpost).
    by exists ((n0, f0) :: pre), n, fld, post.
  - apply elem_of_cons in Hin as [->|Hin]; [|done].
    by exists [], n0, f0, flds.
Qed.
End heap_facts.

(** C1 (as the code has it): on a well-formed heap the call runs to the end,
    and afterwards, for every field of the form, the attributes of its widget
    have an entry under every name of [attrs], and under every other name
    exactly the entry they had before; and if no later field holds the same
    widget, the entries under the names of [attrs] are the ones computed for
    this field. An entry the widget had under a name of [attrs] is replaced. *)
Theorem set_form_widgets_attrs_merges
    (frm : form) (attrs : nat) (h : heap) (A : gmap string value) :
  heap_wf h frm attrs → dicts h !! attrs = Some A →
  ∃ h', set_form_widgets_attrs frm attrs h = Some ((), h')
    ∧ ∀ pre n fld post, fields frm = pre ++ (n, fld) :: post →
        ∃ D D', attrs_of h (widget fld) = Some D
          ∧ attrs_of h' (widget fld) = Some D'
          ∧ (∀ k, is_Some (A !! k) → is_Some (D' !! k))
          ∧ (∀ k, A !! k = None → D' !! k = D !! k)
          ∧ (widget fld ∉ (widget ∘ snd) <$> post →
             ∀ k v, A !! k = Some v → D' !! k = Some (resolve fld v)).
Proof.
  intros (_ & Hok & Hflds) Hattrs. destruct frm as [flds]. simpl in *.
  destruct (fields_loop attrs A flds h Hattrs Hok Hflds)
    as (h' & Hrun & _ & _ & _ & Hlast).
  exists h'. split; [done|]. intros pre n fld post Hdec.
  assert (∃ D, attrs_of h (widget fld) = Some D) as [D HD].
  { rewrite Forall_forall in Hflds.
    destruct (Hflds (n, fld)) as [a Ha].
    { rewrite Hdec, elem_of_app, elem_of_cons. auto. }
    destruct (Hok _ _ Ha) as [D HD]. exists D.
    unfold attrs_of. simpl in Ha. by rewrite Ha. }
  destruct (last_field_with_widget flds (widget fld))
    as (pre' & n' & fld' & post' & Hdec' & Hw' & Hpost').
  { rewrite Hdec, fmap_app, fmap_cons, elem_of_app, elem_of_cons. auto. }
  assert (attrs_of h' (widget fld) = Some ((resolve fld' <$> A) ∪ D)) as HD'.
  { rewrite <-Hw'. apply (Hlast pre' n' fld' post'); by rewrite ?Hw'. }
  exists D, ((resolve fld' <$> A) ∪ D). split_and!; [done|done|..].
  - intros k [v Hv]. by rewrite (resolve_union_entry _ _ _ _ v).
  - intros k Hk. by apply resolve_union_frame.
  - intros Hpost k v Hv.
    rewrite (Hlast pre n fld post D Hdec Hpost HD) in HD'.
    injection HD' as HD'. rewrite <-HD'. by apply resolve_union_entry.
Qed.

Lemma set_form_widgets_attrs_merges_witness :
  ∃ h', set_form_widgets_attrs example_form 0 example_heap = Some ((), h').
Proof.
  assert (heap_wf example_heap example_form 0) as Hwf.
  { apply (bool_decide_unpack _). vm_compute. exact I. }
  assert (dicts example_heap !! 0%nat = Some example_attrs) as Hattrs.
  { reflexivity. }
  destruct (set_form_widgets_attrs_merges example_form 0 example_heap
              example_attrs Hwf Hattrs) as (h' & Hrun & _).
  exists h'. exact Hrun.
Defined.

(** C1, the claim as stated, fails: the first widget had [class] with the
    value [old] before the call and has [class] with the value [x] after
    it. *)
Lemma set_form_widgets_attrs_replaces_entry :
  match set_form_widgets_attrs example_form 0 example_heap with
  | Some (_, h') =>
      (attrs_of example_heap 7 ≫= (.!! "class")) = Some (VStr "old")
      ∧ (attrs_of h' 7 ≫= (.!! "class")) = Some (VStr "x")
      ∧ (attrs_of h' 7 ≫= (.!! "class")) ≠ Some (VStr "old")
  | None => False
  end.
Proof. vm_compute. split_and!; [reflexivity|reflexivity|discriminate]. Qed.

(** Two fields that hold one widget: the widget ends with the entries computed
    for the second field, those computed for the first are gone. *)
Lemma set_form_widgets_attrs_shared_widget :
  match set_form_widgets_attrs shared_widget_form 0 example_heap with
  | Some (_, h') =>
      (example_attrs !! "data-n" ≫= λ v,
         Some (resolve (Field "first" 7) v)) = Some (VStr "first")
      ∧ (attrs_of h' 7 ≫= (.!! "data-n")) = Some (VStr "second")
  | None => False
  end.
Proof. vm_compute. split; reflexivity. Qed.

(** C10: the call leaves the mapping it was given as it was; every
    dictionary that existed before the call is unchanged, the resolved
    entries go to dictionaries made during the call. *)
Theorem set_form_widgets_attrs_keeps_attrs
    (frm : form) (attrs : nat) (h : heap) (A : gmap string value) :
  heap_wf h frm attrs → dicts h !! attrs = Some A →
  ∃ h', set_form_widgets_attrs frm attrs h = Some ((), h')
    ∧ dicts h' !! attrs = Some A
    ∧ dicts h ⊆ dicts h'.
Proof.
  intros (_ & Hok & Hflds) Hattrs. destruct frm as [flds]. simpl in *.
  destruct (fields_loop attrs A flds h Hattrs Hok Hflds)
    as (h' & Hrun & Hsub & _).
  exists h'. split_and!; [done| |done].
  by apply (lookup_weaken _ _ _ _ Hattrs).
Qed.

Lemma set_form_widgets_attrs_keeps_attrs_witness :
  ∃ h', set_form_widgets_attrs example_form 0 example_heap = Some ((), h')
    ∧ dicts h' !! 0%nat = Some example_attrs.
Proof.
  assert (heap_wf example_heap example_form 0) as Hwf.
  { apply (bool_decide_unpack _). vm_compute. exact I. }
  assert (dicts example_heap !! 0%nat = Some example_attrs) as Hattrs.
  { reflexivity. }
  destruct (set_form_widgets_attrs_keeps_attrs example_form 0 example_heap
              example_attrs Hwf Hattrs) as (h' & Hrun & Hsame & _).
  exists h'. split; [exact Hrun|exact Hsame].
Defined.

(** *** Further behaviour of the loop over the fields *)

Section heap_frame_facts.
Implicit Types (h : heap) (A D : gmap string value) (fld : field).

Lemma attrs_of_outside h h' w :
  map_Forall (λ _ a, is_Some (dicts h !! a)) (widget_attrs h) →
  dicts h ⊆ dicts h' → widget_attrs h' !! w = widget_attrs h !! w →
  attrs_of h' w = attrs_of h w.
Proof.
  intros Hok Hsub Hw. unfold attrs_of. rewrite Hw.
  destruct (widget_attrs h !! w) as [a|] eqn:Ha; simpl; [|done].
  destruct (Hok _ _ Ha) as [D HD]. rewrite HD.
  by apply (lookup_weaken _ _ _ _ HD).
Qed.

Lemma attrs_of_is_Some h w :
  map_Forall (λ _ a, is_Some (dicts h !! a)) (widget_attrs h) →
  is_Some (widget_attrs h !! w) → is_Some (attrs_of h w).
Proof.
  intros Hok [a Ha]. unfold attrs_of. rewrite Ha. simpl. by apply (Hok w).
Qed.

Lemma field_widget_elem (flds : list (string * field)) n fld :
  (n, fld) ∈ flds → widget fld ∈ (widget ∘ snd) <$> flds.
Proof. intros Hin. apply list_elem_of_fmap. by exists (n, fld). Qed.

(** The heap stays well formed, and every widget of the form ends with a
    dictionary that did not exist before the call. *)
Lemma fields_loop_wf attrs A : ∀ flds h h',
  dicts h !! attrs = Some A →
  map_Forall (λ _ a, is_Some (dicts h !! a)) (widget_attrs h) →
  Forall (λ nf, is_Some (widget_attrs h !! widget nf.2)) flds →
  set_form_widgets_attrs (Form flds) attrs h = Some ((), h') →
  map_Forall (λ _ a, is_Some (dicts h' !! a)) (widget_attrs h')
  ∧ (∀ w, is_Some (widget_attrs h !! w) → is_Some (widget_attrs h' !! w))
  ∧ (∀ w, w ∈ (widget ∘ snd) <$> flds →
          ∃ l, widget_attrs h' !! w = Some l ∧ dicts h !! l = None).
Proof.
  induction flds as [|[n0 f0] flds IH]; intros h h' Hattrs Hok Hflds Hrun.
  { injection Hrun as <-. split_and!; [done|done|].
    intros w Hw. by apply elem_of_nil in Hw. }
  apply Forall_cons in Hflds as [[a0 Hw0] Hflds]. simpl in Hw0.
  destruct (Hok _ _ Hw0) as [D0 Ha0].
  rewrite (field_step attrs A n0 f0 flds h a0 D0) in Hrun by done.
  set (h1 := field_heap f0 A D0 h) in *.
  assert (dicts h ⊆ dicts h1) as Hsub1 by apply field_heap_dicts.
  assert (dicts h1 !! attrs = Some A) as Hattrs1
    by by apply (lookup_weaken _ _ _ _ Hattrs).
  assert (map_Forall (λ _ a, is_Some (dicts h1 !! a)) (widget_attrs h1))
    as Hok1 by by apply field_heap_wf.
  assert (∀ w, is_Some (widget_attrs h !! w) → is_Some (widget_attrs h1 !! w))
    as Hdom1.
  { intros w Hw. unfold h1, field_heap. simpl.
    destruct (decide (widget f0 = w)) as [->|Hne].
    - rewrite lookup_insert_eq. eauto.
    - by rewrite lookup_insert_ne. }
  assert (Forall (λ nf, is_Some (widget_attrs h1 !! widget nf.2)) flds)
    as Hflds1.
  { eapply Forall_impl; [exact Hflds|]. intros nf. apply Hdom1. }
  destruct (IH h1 h' Hattrs1 Hok1 Hflds1 Hrun) as (Hok' & Hdom' & Hnew').
  split_and!; [done|by auto|].
  intros w Hw.
  destruct (decide (w ∈ (widget ∘ snd) <$> flds)) as [Hrest|Hrest].
  - destruct (Hnew' w Hrest) as (l & Hl & Hfresh). exists l. split; [done|].
    destruct (dicts h !! l) as [d|] eqn:Hd; [|done].
    by rewrite (lookup_weaken _ _ _ _ Hd Hsub1) in Hfresh.
  - rewrite fmap_cons in Hw. apply elem_of_cons in Hw as [->|Hw]; [|done].
    destruct (fields_loop attrs A flds h1 Hattrs1 Hok1 Hflds1)
      as (h'' & Hrun'' & _ & Hframe & _).
    assert (h'' = h') as -> by congruence.
    exists (fresh (dom (<[fresh (dom (dicts h)) := resolve f0 <$> A]>
                          (dicts h)))).
    split.
    + rewrite Hframe by done. unfold h1, field_heap. simpl.
      by rewrite lookup_insert_eq.
    + pose proof (is_fresh (dom (<[fresh (dom (dicts h)) := resolve f0 <$> A]>
                                   (dicts h)))) as Hfresh.
      apply not_elem_of_dom in Hfresh.
      by apply lookup_insert_None in Hfresh as [Hfresh _].
Qed.
End heap_frame_facts.

(** X14: a widget that belongs to no field of the form keeps the dictionary
    it had, with the items it had. *)
Theorem set_form_widgets_attrs_other_widgets
    (frm : form) (attrs : nat) (h : heap) (A : gmap string value) :
  heap_wf h frm attrs → dicts h !! attrs = Some A →
  ∃ h', set_form_widgets_attrs frm attrs h = Some ((), h')
    ∧ ∀ w, w ∉ (widget ∘ snd) <$> fields frm →
           widget_attrs h' !! w = widget_attrs h !! w
           ∧ attrs_of h' w = attrs_of h w.
Proof.
  intros (_ & Hok & Hflds) Hattrs. destruct frm as [flds]. simpl in *.
  destruct (fields_loop attrs A flds h Hattrs Hok Hflds)
    as (h' & Hrun & Hsub & Hframe & _).
  exists h'. split; [done|]. intros w Hw.
  split; [by apply Hframe|].
  apply attrs_of_outside; [done|done|by apply Hframe].
Qed.

Lemma set_form_widgets_attrs_other_widgets_witness :
  ∃ h', set_form_widgets_attrs (Form [("first", Field "first" 7)]) 0
          example_heap = Some ((), h')
    ∧ attrs_of h' 8 = attrs_of example_heap 8.
Proof.
  assert (heap_wf example_heap (Form [("first", Field "first" 7)]) 0) as Hwf.
  { apply (bool_decide_unpack _). vm_compute. exact I. }
  assert (dicts example_heap !! 0%nat = Some example_attrs) as Hattrs.
  { reflexivity. }
  destruct (set_form_widgets_attrs_other_widgets
              (Form [("first", Field "first" 7)]) 0 example_heap
              example_attrs Hwf Hattrs) as (h' & Hrun & Hother).
  exists h'. split; [exact Hrun|].
  refine (proj2 (Hother 8%nat _)).
  apply (bool_decide_unpack _). vm_compute. exact I.
Defined.

(** X15: a literal entry of [attrs] ends in the attributes of the widget of
    every field of the form, also when fields hold one widget between
    them. *)
Theorem set_form_widgets_attrs_literal_entries
    (frm : form) (attrs : nat) (h : heap) (A : gmap string value) :
  heap_wf h frm attrs → dicts h !! attrs = Some A →
  ∃ h', set_form_widgets_attrs frm attrs h = Some ((), h')
    ∧ ∀ n fld k s, (n, fld) ∈ fields frm → A !! k = Some (VStr s) →
        ∃ D', attrs_of h' (widget fld) = Some D' ∧ D' !! k = Some (VStr s).
Proof.
  intros (_ & Hok & Hflds) Hattrs. destruct frm as [flds]. simpl in *.
  destruct (fields_loop attrs A flds h Hattrs Hok Hflds)
    as (h' & Hrun & _ & _ & _ & Hlast).
  exists h'. split; [done|]. intros n fld k s Hin Hk.
  destruct (last_field_with_widget flds (widget fld))
    as (pre & n' & fld' & post & Hdec & Hw & Hpost).
  { by apply (field_widget_elem flds n). }
  destruct (attrs_of_is_Some h (widget fld) Hok) as [D HD].
  { rewrite Forall_forall in Hflds. apply (Hflds (n, fld) Hin). }
  exists ((resolve fld' <$> A) ∪ D). split.
  - rewrite <-Hw. apply (Hlast pre n' fld' post); by rewrite ?Hw.
  - by rewrite (resolve_union_entry _ _ _ _ (VStr s)).
Qed.

Lemma set_form_widgets_attrs_literal_entries_witness :
  ∃ h' D', set_form_widgets_attrs shared_widget_form 0 example_heap
           = Some ((), h')
    ∧ attrs_of h' 7 = Some D' ∧ D' !! "class" = Some (VStr "x").
Proof.
  assert (heap_wf example_heap shared_widget_form 0) as Hwf.
  { apply (bool_decide_unpack _). vm_compute. exact I. }
  assert (dicts example_heap !! 0%nat = Some example_attrs) as Hattrs.
  { reflexivity. }
  destruct (set_form_widgets_attrs_literal_entries shared_widget_form 0
              example_heap example_attrs Hwf Hattrs) as (h' & Hrun & Hlit).
  destruct (Hlit "first" (Field "first" 7) "class" "x") as (D' & HD' & Hk).
  { apply (bool_decide_unpack _). vm_compute. exact I. }
  { reflexivity. }
  exists h', D'. split_and!; [exact Hrun|exact HD'|exact Hk].
Defined.

(** X16: the widget of every field ends with a dictionary made during the
    call, and the dictionary it had before still holds its old items: the
    attributes are rebound, not updated in place. *)
Theorem set_form_widgets_attrs_rebinds
    (frm : form) (attrs : nat) (h : heap) (A : gmap string value) :
  heap_wf h frm attrs → dicts h !! attrs = Some A →
  ∃ h', set_form_widgets_attrs frm attrs h = Some ((), h')
    ∧ ∀ n fld, (n, fld) ∈ fields frm →
        ∃ old new D,
          widget_attrs h !! widget fld = Some old
          ∧ widget_attrs h' !! widget fld = Some new
          ∧ dicts h !! new = None
          ∧ dicts h !! old = Some D ∧ dicts h' !! old = Some D.
Proof.
  intros (_ & Hok & Hflds) Hattrs. destruct frm as [flds]. simpl in *.
  destruct (fields_loop attrs A flds h Hattrs Hok Hflds)
    as (h' & Hrun & Hsub & _).
  destruct (fields_loop_wf attrs A flds h h' Hattrs Hok Hflds Hrun)
    as (_ & _ & Hnew).
  exists h'. split; [done|]. intros n fld Hin.
  rewrite Forall_forall in Hflds.
  destruct (Hflds (n, fld) Hin) as [old Hold]. simpl in Hold.
  destruct (Hok _ _ Hold) as [D HD].
  destruct (Hnew (widget fld)) as (new & Hnew' & Hfresh).
  { by apply (field_widget_elem flds n). }
  exists old, new, D. split_and!; [done..|].
  by apply (lookup_weaken _ _ _ _ HD).
Qed.

Lemma set_form_widgets_attrs_rebinds_witness :
  ∃ h', set_form_widgets_attrs example_form 0 example_heap = Some ((), h')
    ∧ dicts h' !! 1%nat = dicts example_heap !! 1%nat.
Proof.
  assert (heap_wf example_heap example_form 0) as Hwf.
  { apply (bool_decide_unpack _). vm_compute. exact I. }
  assert (dicts example_heap !! 0%nat = Some example_attrs) as Hattrs.
  { reflexivity. }
  destruct (set_form_widgets_attrs_rebinds example_form 0 example_heap
              example_attrs Hwf Hattrs) as (h' & Hrun & Hre).
  destruct (Hre "first" (Field "first" 7))
    as (old & new & D & Hold & _ & _ & HD & HD').
  { apply (bool_decide_unpack _). vm_compute. exact I. }
  exists h'. split; [exact Hrun|].
  assert (old = 1%nat) as -> by (vm_compute in Hold; congruence).
  by rewrite HD, HD'.
Defined.
